(** * Regression with a spiking network: the LIF recurrence and its unrolling

    A shallow embedding of [examples/tutorial_regression_1.ipynb]:
    the dataset class [RegressionDataset], the three-stage network [Net]
    and its time-unrolled [forward] pass.

    Conventions.
    - Tensor entries are real numbers ([R]); rounding of the machine floats
      is abstracted away.
    - Data tensors are nested lists: a [Vec] is one sample's feature row,
      a [Mat] is [batch][features], a [Tensor3] is [time][batch][features].
    - Parameter tensors are index functions together with their sizes.
    - Python exceptions are values of [PyError]; a fallible computation
      returns a [result]. *)

From Stdlib Require Import String Reals Lra Lia ZArith Bool Arith List.
Import ListNotations.
Open Scope R_scope.

(* ================================================================= *)
(** ** Exceptions and results *)

Inductive PyError : Type :=
| IndexError
| RuntimeError
| NotImplementedError (msg : string).

Inductive result (A : Type) : Type :=
| Ok (a : A)
| Raise (e : PyError).

Arguments Ok {A} a.
Arguments Raise {A} e.

Definition bind {A B : Type} (r : result A) (k : A -> result B) : result B :=
  match r with
  | Ok a => k a
  | Raise e => Raise e
  end.

Notation "x <- r ;; k" := (bind r (fun x => k))
  (at level 61, r at next level, right associativity).

(* ================================================================= *)
(** ** Tensors *)

Definition Vec : Type := list R.
Definition Mat : Type := list Vec.
Definition Tensor3 : Type := list Mat.

(** Entry [b, j] of a [batch][features] tensor; positions outside the
    tensor read as zero. *)
Definition at2 (m : Mat) (b j : nat) : R := nth j (nth b m []) 0.


(** Indexed map: [imap_from k f [a0; a1; ...] = [f k a0; f (k+1) a1; ...]]. *)
Fixpoint imap_from {A B : Type} (k : nat) (f : nat -> A -> B) (l : list A)
  : list B :=
  match l with
  | [] => []
  | a :: l' => f k a :: imap_from (S k) f l'
  end.

Definition imap {A B : Type} (f : nat -> A -> B) (l : list A) : list B :=
  imap_from 0 f l.

(** Shape of a [batch][features] tensor: the width of every row. *)
Definition shape2 (m : Mat) : list nat := map (@length R) m.

Definition same_shape (a b : Mat) : bool :=
  if list_eq_dec Nat.eq_dec (shape2 a) (shape2 b) then true else false.

(** [x[step, :, :]]: indexing the leading axis, [IndexError] past the end. *)
Definition index0 (x : Tensor3) (step : nat) : result Mat :=
  match nth_error x step with
  | Some m => Ok m
  | None => Raise IndexError
  end.

(** [torch.stack(ts)] along a new leading axis: the list must be non-empty
    and all its tensors must have one shape. *)
Definition torch_stack (ts : list Mat) : result Tensor3 :=
  match ts with
  | [] => Raise RuntimeError
  | t :: rest =>
      if forallb (same_shape t) rest then Ok ts else Raise RuntimeError
  end.

(** [range(n)] for a Python integer [n]: empty when [n <= 0]. *)
Definition range (n : Z) : list nat := seq 0 (Z.to_nat n).

(* ================================================================= *)
(** ** The LIF cell *)

Inductive ResetMechanism : Type :=
| ResetSubtract
| ResetZero
| ResetNone.

(** Modelled from the spec: the spike decision of [snn.Leaky] (the class is
    library code outside this notebook).  Spike = 1 if the candidate
    potential is at least the threshold, else 0. *)
Definition fire (thr cand : R) : R :=
  if Rle_dec thr cand then 1 else 0.

(** Modelled from the spec: one step of [snn.Leaky] for one neuron,
    [step(input_current, prev_potential) -> (spike, new_potential)].
    Candidate potential = [beta * prev_potential + input_current]; the new
    potential is the candidate after the reset rule of the cell. *)
Definition lif_step (beta thr : R) (reset : ResetMechanism)
  (input_current prev_potential : R) : R * R :=
  let cand := beta * prev_potential + input_current in
  let spk := fire thr cand in
  (spk,
   match reset with
   | ResetSubtract => cand - thr * spk
   | ResetZero => cand * (1 - spk)
   | ResetNone => cand
   end).

(** Modelled from the spec: a [snn.Leaky] module.  Decay rate and threshold
    are per-neuron parameters (a one-element or scalar parameter is the
    constant function: it broadcasts to every neuron the cell is applied
    to); the reset mode is fixed at construction. *)
Record Leaky : Type := {
  beta : nat -> R;
  threshold : nat -> R;
  reset_mechanism : ResetMechanism
}.

(** Modelled from the spec: [Leaky.init_leaky()], the membrane potential at
    the start of a forward pass, zero for every neuron and sample.  It is
    created before the shape of the input is known: the empty tensor, whose
    entries all read as zero through [at2]. *)
Definition init_leaky (l : Leaky) : Mat := [].

(** Modelled from the spec: [Leaky.forward(input_, mem)] on a
    [batch][neurons] current, [lif_step] at every entry with the neuron's
    own parameters.  Returns [(spk, mem)], both of the shape of the current;
    the previous potential is read through [at2], so that the potential of
    [init_leaky] counts as zero at every entry. *)
Definition Leaky_forward (l : Leaky) (input_ mem : Mat) : Mat * Mat :=
  (imap (fun b row =>
           imap (fun j cur =>
                   fst (lif_step (beta l j) (threshold l j)
                          (reset_mechanism l) cur (at2 mem b j))) row) input_,
   imap (fun b row =>
           imap (fun j cur =>
                   snd (lif_step (beta l j) (threshold l j)
                          (reset_mechanism l) cur (at2 mem b j))) row) input_).

(** Modelled from the spec: the smooth surrogate of the spike used while
    training, [surrogate.fast_sigmoid] in the notebook (library code outside
    it): a steep sigmoid of [candidate_potential - threshold], with slope
    parameter [slope]. *)
Definition surrogate_spike (slope thr cand : R) : R :=
  1 / (1 + exp (- (slope * (cand - thr)))).

(** Driving one cell over a sequence of input currents and recording the
    potential after every step. *)
Fixpoint Leaky_run (l : Leaky) (currents : list Mat) (mem : Mat) : list Mat :=
  match currents with
  | [] => []
  | cur :: rest =>
      let mem' := snd (Leaky_forward l cur mem) in
      mem' :: Leaky_run l rest mem'
  end.

(* ================================================================= *)
(** ** Affine maps *)

(** [torch.nn.Linear]: [weight] has shape [out_features][in_features],
    [bias] has shape [out_features]. *)
Record Linear : Type := {
  in_features : nat;
  out_features : nat;
  weight : nat -> nat -> R;
  bias : nat -> R
}.

(** [torch.sum] of one row. *)
Definition vsum (v : Vec) : R := fold_right Rplus 0 v.

(** Inner product of one input row with row [w] of the weight matrix. *)
Definition dot (w : nat -> R) (v : Vec) : R :=
  vsum (imap (fun i vi => vi * w i) v).

(** [y = x W^T + b] on every row of the batch; a row whose width is not
    [in_features] is a shape error. *)
Definition Linear_forward (l : Linear) (x : Mat) : result Mat :=
  if forallb (fun v => Nat.eqb (length v) (in_features l)) x
  then Ok (map (fun v =>
                  map (fun j => dot (weight l j) v + bias l j)
                    (seq 0 (out_features l))) x)
  else Raise RuntimeError.

(* ================================================================= *)
(** ** The network *)

(** The values held by the learnable tensors of a [Net]: the draws of
    [torch.rand] and of the initialisation of [torch.nn.Linear] at
    construction, or whatever training has turned them into. *)
Record NetParams : Type := {
  fc_in_weight : nat -> nat -> R;
  fc_in_bias : nat -> R;
  beta_in : nat -> R;
  thr_in : nat -> R;
  fc_hidden_weight : nat -> nat -> R;
  fc_hidden_bias : nat -> R;
  beta_hidden : nat -> R;
  thr_hidden : nat -> R;
  fc_out_weight : nat -> nat -> R;
  fc_out_bias : nat -> R;
  beta_out : R
}.

(** The attributes of a [Net] object. *)
Record Net : Type := {
  timesteps : Z;
  hidden : nat;
  fc_in : Linear;
  lif_in : Leaky;
  fc_hidden : Linear;
  lif_hidden : Leaky;
  fc_out : Linear;
  li_out : Leaky
}.

(** The local variables of [Net.forward] that live across the time loop. *)
Record LoopState : Type := {
  mem_1 : Mat;
  mem_2 : Mat;
  mem_3 : Mat;
  mem_3_rec : list Mat
}.

(** Running the body of a [for] loop over the values of its iterator,
    stopping at the first exception. *)
Fixpoint for_each {S : Type} (steps : list nat) (body : nat -> S -> result S)
  (st : S) : result S :=
  match steps with
  | [] => Ok st
  | step :: rest => st' <- body step st ;; for_each rest body st'
  end.

Section Network.

(** The reset mode [snn.Leaky] takes when the constructor call names none
    (the default lives in the library, outside this notebook). *)
Variable default_reset_mechanism : ResetMechanism.

(** [Net.__init__(timesteps, hidden)], with the values [p] of the tensors
    it creates. *)
Definition Net_init (timesteps : Z) (hidden : nat) (p : NetParams) : Net :=
  {| timesteps := timesteps;
     hidden := hidden;
     (* layer 1 *)
     fc_in := {| in_features := 1; out_features := hidden;
                 weight := fc_in_weight p; bias := fc_in_bias p |};
     lif_in := {| beta := beta_in p; threshold := thr_in p;
                  reset_mechanism := default_reset_mechanism |};
     (* layer 2 *)
     fc_hidden := {| in_features := hidden; out_features := hidden;
                     weight := fc_hidden_weight p;
                     bias := fc_hidden_bias p |};
     lif_hidden := {| beta := beta_hidden p; threshold := thr_hidden p;
                      reset_mechanism := default_reset_mechanism |};
     (* layer 3: leaky integrator neuron, reset disabled *)
     fc_out := {| in_features := hidden; out_features := 1;
                  weight := fc_out_weight p; bias := fc_out_bias p |};
     li_out := {| beta := fun _ => beta_out p; threshold := fun _ => 1;
                  reset_mechanism := ResetNone |} |}.

End Network.

(** The state before the loop of [Net.forward]: the three potentials from
    [init_leaky], the record list empty. *)
Definition init_state (net : Net) : LoopState :=
  {| mem_1 := init_leaky (lif_in net);
     mem_2 := init_leaky (lif_hidden net);
     mem_3 := init_leaky (li_out net);
     mem_3_rec := [] |}.

(** The body of the time loop of [Net.forward]. *)
Definition loop_body (net : Net) (x : Tensor3) (step : nat) (st : LoopState)
  : result LoopState :=
  x_timestep <- index0 x step ;;
  cur_in <- Linear_forward (fc_in net) x_timestep ;;
  let r_in := Leaky_forward (lif_in net) cur_in (mem_1 st) in
  cur_hidden <- Linear_forward (fc_hidden net) (fst r_in) ;;
  let r_hidden := Leaky_forward (li_out net) cur_hidden (mem_2 st) in
  cur_out <- Linear_forward (fc_out net) (fst r_hidden) ;;
  let r_out := Leaky_forward (li_out net) cur_out (mem_3 st) in
  Ok {| mem_1 := snd r_in;
        mem_2 := snd r_hidden;
        mem_3 := snd r_out;
        mem_3_rec := mem_3_rec st ++ [snd r_out] |}.

(** [Net.forward(x)]. *)
Definition forward (net : Net) (x : Tensor3) : result Tensor3 :=
  st <- for_each (range (timesteps net)) (loop_body net x) (init_state net) ;;
  torch_stack (mem_3_rec st).

(** The layer composition as the specification words it: every stage runs
    its own cell (the hidden stage runs [lif_hidden]). *)
Definition loop_body_own_cells (net : Net) (x : Tensor3) (step : nat)
  (st : LoopState) : result LoopState :=
  x_timestep <- index0 x step ;;
  cur_in <- Linear_forward (fc_in net) x_timestep ;;
  let r_in := Leaky_forward (lif_in net) cur_in (mem_1 st) in
  cur_hidden <- Linear_forward (fc_hidden net) (fst r_in) ;;
  let r_hidden := Leaky_forward (lif_hidden net) cur_hidden (mem_2 st) in
  cur_out <- Linear_forward (fc_out net) (fst r_hidden) ;;
  let r_out := Leaky_forward (li_out net) cur_out (mem_3 st) in
  Ok {| mem_1 := snd r_in;
        mem_2 := snd r_hidden;
        mem_3 := snd r_out;
        mem_3_rec := mem_3_rec st ++ [snd r_out] |}.

Definition forward_own_cells (net : Net) (x : Tensor3) : result Tensor3 :=
  st <- for_each (range (timesteps net)) (loop_body_own_cells net x)
          (init_state net) ;;
  torch_stack (mem_3_rec st).

(** *** The firing decision at the threshold itself

    The specification words the spike as [candidate >= threshold] ([fire]).
    A cell that takes the Heaviside step of [candidate - threshold], which
    is 0 at 0, fires only above the threshold ([fire_above]).  The two
    agree except at a potential exactly equal to the threshold.  The
    definitions below are [lif_step], [Leaky_forward], [loop_body] and
    [forward] with the decision [spike_fn] as a parameter and nothing else
    changed: [forward_with fire] is [forward]. *)


Definition lif_step_with (spike_fn : R -> R -> R) (beta thr : R)
  (reset : ResetMechanism) (input_current prev_potential : R) : R * R :=
  let cand := beta * prev_potential + input_current in
  let spk := spike_fn thr cand in
  (spk,
   match reset with
   | ResetSubtract => cand - thr * spk
   | ResetZero => cand * (1 - spk)
   | ResetNone => cand
   end).

Definition Leaky_forward_with (spike_fn : R -> R -> R) (l : Leaky)
  (input_ mem : Mat) : Mat * Mat :=
  (imap (fun b row =>
           imap (fun j cur =>
                   fst (lif_step_with spike_fn (beta l j) (threshold l j)
                          (reset_mechanism l) cur (at2 mem b j))) row) input_,
   imap (fun b row =>
           imap (fun j cur =>
                   snd (lif_step_with spike_fn (beta l j) (threshold l j)
                          (reset_mechanism l) cur (at2 mem b j))) row) input_).

Definition loop_body_with (spike_fn : R -> R -> R) (net : Net) (x : Tensor3)
  (step : nat) (st : LoopState) : result LoopState :=
  x_timestep <- index0 x step ;;
  cur_in <- Linear_forward (fc_in net) x_timestep ;;
  let r_in := Leaky_forward_with spike_fn (lif_in net) cur_in (mem_1 st) in
  cur_hidden <- Linear_forward (fc_hidden net) (fst r_in) ;;
  let r_hidden :=
    Leaky_forward_with spike_fn (li_out net) cur_hidden (mem_2 st) in
  cur_out <- Linear_forward (fc_out net) (fst r_hidden) ;;
  let r_out := Leaky_forward_with spike_fn (li_out net) cur_out (mem_3 st) in
  Ok {| mem_1 := snd r_in;
        mem_2 := snd r_hidden;
        mem_3 := snd r_out;
        mem_3_rec := mem_3_rec st ++ [snd r_out] |}.

Definition forward_with (spike_fn : R -> R -> R) (net : Net) (x : Tensor3)
  : result Tensor3 :=
  st <- for_each (range (timesteps net)) (loop_body_with spike_fn net x)
          (init_state net) ;;
  torch_stack (mem_3_rec st).

(** *** A small network

    Parameter values for a network with one hidden neuron, used to run the
    definitions on concrete inputs. *)
Definition sample_params : NetParams :=
  {| fc_in_weight := fun _ _ => 1;
     fc_in_bias := fun _ => 0;
     beta_in := fun _ => 0.5;
     thr_in := fun _ => 0.5;
     fc_hidden_weight := fun _ _ => 0.75;
     fc_hidden_bias := fun _ => 0;
     beta_hidden := fun _ => 0.5;
     thr_hidden := fun _ => 0.5;
     fc_out_weight := fun _ _ => 1;
     fc_out_bias := fun _ => 0;
     beta_out := 0.5 |}.



(** The same network with another cell stored in the attribute
    [lif_hidden]. *)
Definition with_lif_hidden (net : Net) (l : Leaky) : Net :=
  {| timesteps := timesteps net;
     hidden := hidden net;
     fc_in := fc_in net;
     lif_in := lif_in net;
     fc_hidden := fc_hidden net;
     lif_hidden := l;
     fc_out := fc_out net;
     li_out := li_out net |}.

(* ================================================================= *)
(** ** The dataset *)

(** [torch.linspace(start, end, steps)]: a negative number of steps is an
    error; one step gives [start] alone. *)
Definition linspace (start end_ : R) (steps : Z) : result Vec :=
  if (steps <? 0)%Z then Raise RuntimeError
  else Ok (map (fun i => start + INR i * ((end_ - start) / (IZR steps - 1)))
             (seq 0 (Z.to_nat steps))).

(** [v.view(len(v), 1)]: a column. *)
Definition view_column (v : Vec) : Mat := map (fun a => [a]) v.

(** [torch.stack(ts, dim=1)] of tensors of shape [time][1]: entry [t][i] of
    the result is entry [t] of the [i]-th tensor.  The list must be
    non-empty and all its tensors must have one shape. *)
Definition torch_stack_dim1 (ts : list Mat) : result Tensor3 :=
  match ts with
  | [] => Raise RuntimeError
  | t :: rest =>
      if forallb (same_shape t) rest
      then Ok (map (fun i => map (fun f => nth i f []) ts) (seq 0 (length t)))
      else Raise RuntimeError
  end.

(** An elementwise operation on a [time][batch][features] tensor. *)
Definition tmap3 (f : R -> R) (x : Tensor3) : Tensor3 := map (map (map f)) x.

Record RegressionDataset : Type := {
  num_samples : Z;
  features : Tensor3;
  labels : Tensor3
}.

Section Dataset.

(** The successive draws of [float(torch.rand(1))]. *)
Variable rand : nat -> R.

(** [RegressionDataset.__init__(timesteps, num_samples, mode)]. *)
Definition RegressionDataset_init (timesteps num_samples : Z) (mode : string)
  : result RegressionDataset :=
  feature_lst <-
    for_each (range num_samples)
      (fun idx feature_lst =>
         let end_ := rand idx in
         lin_vec <- linspace 0 end_ timesteps ;;
         let feature := view_column lin_vec in
         Ok (feature_lst ++ [feature]))
      [] ;;
  features <- torch_stack_dim1 feature_lst ;;
  if String.eqb mode "linear" then
    Ok {| num_samples := num_samples;
          features := features;
          labels := tmap3 (fun a => a * 1) features |}
  else if String.eqb mode "sqrt" then
    let slope := rand (Z.to_nat num_samples) in
    Ok {| num_samples := num_samples;
          features := features;
          labels := tmap3 (fun a => sqrt (a * slope)) features |}
  else Raise (NotImplementedError "'linear', 'sqrt'").

End Dataset.

(** [RegressionDataset.__len__]. *)
Definition RegressionDataset_len (d : RegressionDataset) : Z := num_samples d.

(* ================================================================= *)
(** ** Serving the samples *)

(** Entry [t, b, j] of a [time][batch][features] tensor; positions outside
    the tensor read as zero. *)
Definition at3 (x : Tensor3) (t b j : nat) : R := at2 (nth t x []) b j.

(** [x[:, idx, :]] on a tensor whose axis 1 has size [n]: a negative index
    counts from the end, an index outside [-n, n) is an [IndexError]. *)
Definition select_axis1 (n : nat) (x : Tensor3) (idx : Z) : result Mat :=
  if ((0 <=? idx) && (idx <? Z.of_nat n))%Z then
    Ok (map (fun m => nth (Z.to_nat idx) m []) x)
  else if ((- Z.of_nat n <=? idx) && (idx <? 0))%Z then
    Ok (map (fun m => nth (Z.to_nat (idx + Z.of_nat n)) m []) x)
  else Raise IndexError.

(** [RegressionDataset.__getitem__(idx)].  Axis 1 of [self.features] and of
    [self.labels] has size [self.num_samples]: the constructor stacks that
    many samples along it. *)
Definition RegressionDataset_getitem (d : RegressionDataset) (idx : Z)
  : result (Mat * Mat) :=
  feature <- select_axis1 (Z.to_nat (num_samples d)) (features d) idx ;;
  label <- select_axis1 (Z.to_nat (num_samples d)) (labels d) idx ;;
  Ok (feature, label).

(** Mapping a fallible function over a list, stopping at the first
    exception. *)
Fixpoint map_result {A B : Type} (f : A -> result B) (l : list A)
  : result (list B) :=
  match l with
  | [] => Ok []
  | a :: l' => b <- f a ;; bs <- map_result f l' ;; Ok (b :: bs)
  end.

(** [len(DataLoader(dataset, batch_size, drop_last=True))]: the incomplete
    last batch is dropped. *)
Definition DataLoader_len (d : RegressionDataset) (batch_size : positive) : nat :=
  Z.to_nat (RegressionDataset_len d) / Pos.to_nat batch_size.

(** The [k]-th batch of [DataLoader(dataset, batch_size, drop_last=True)]:
    the samples [k * batch_size .. (k+1) * batch_size - 1] in order (no
    shuffling), their features stacked along a new leading axis and their
    labels likewise. *)
Definition DataLoader_batch (d : RegressionDataset) (batch_size : positive)
  (k : nat) : result (Tensor3 * Tensor3) :=
  items <- map_result (fun i => RegressionDataset_getitem d (Z.of_nat i))
             (seq (k * Pos.to_nat batch_size) (Pos.to_nat batch_size)) ;;
  feature <- torch_stack (map fst items) ;;
  label <- torch_stack (map snd items) ;;
  Ok (feature, label).

(** [torch.swapaxes(x, 0, 1)] on a tensor with a non-empty leading axis. *)
Definition swapaxes01 (x : Tensor3) : Tensor3 :=
  match x with
  | [] => []
  | m :: _ => map (fun t => map (fun s => nth t s []) x) (seq 0 (length m))
  end.

(** What the loops of the notebook do with the [k]-th batch before any
    loss is taken: swap the batch and time axes of the features and of the
    labels, and run the network on the features. *)
Definition predict_batch (net : Net) (d : RegressionDataset)
  (batch_size : positive) (k : nat) : result (Tensor3 * Tensor3) :=
  batch <- DataLoader_batch d batch_size k ;;
  let feature := swapaxes01 (fst batch) in
  let label := swapaxes01 (snd batch) in
  mem <- forward net feature ;;
  Ok (mem, label).

(** *** Views used in the statements *)

(** The [time][batch][1] tensor of [Tn] time steps and [n] samples whose
    entry for sample [idx] at time [t] is [h idx t]. *)
Definition table (Tn n : nat) (h : nat -> nat -> R) : Tensor3 :=
  map (fun t => map (fun idx => [h idx t]) (seq 0 n)) (seq 0 Tn).

(** Entry [t] of [torch.linspace(0.0, end_, steps)]. *)
Definition ramp (end_ : R) (steps : Z) (t : nat) : R :=
  0 + INR t * ((end_ - 0) / (IZR steps - 1)).

(** The label of a feature value: [mode] is known to be "linear" or
    "sqrt", [slope] is the draw made for "sqrt". *)
Definition label_of (mode : string) (slope : R) (a : R) : R :=
  if String.eqb mode "linear" then a * 1 else sqrt (a * slope).

(** [m[b:b+1, :]]: row [b] of a [batch][features] tensor, as a batch of
    one. *)
Definition row_of (b : nat) (m : Mat) : Mat := [nth b m []].

(** [x[:, b:b+1, :]]: the input restricted to sample [b] of the batch. *)
Definition sample_of (x : Tensor3) (b : nat) : Tensor3 := map (row_of b) x.

(** [x[:, a:a+n, :]]: the samples [a .. a+n-1] of the batch. *)
Definition samples_of (x : Tensor3) (a n : nat) : Tensor3 :=
  map (fun m => firstn n (skipn a m)) x.

(** The same network simulated for another number of time steps. *)
Definition with_timesteps (net : Net) (T : Z) : Net :=
  {| timesteps := T;
     hidden := hidden net;
     fc_in := fc_in net;
     lif_in := lif_in net;
     fc_hidden := fc_hidden net;
     lif_hidden := lif_hidden net;
     fc_out := fc_out net;
     li_out := li_out net |}.

(* ================================================================= *)
(** * Properties *)

(** Runs a one-step [forward] on concrete parameters, leaving the
    arithmetic on the reals in place. *)
Ltac run_forward :=
  cbn [timesteps Net_init];
  change (range 1) with [0%nat];
  cbn -[fire Rplus Rmult Rminus Rdiv Ropp Rinv IZR].

(** ** Indexed maps *)

Lemma imap_from_length {A B : Type} (f : nat -> A -> B) (l : list A) (k : nat) :
  length (imap_from k f l) = length l.
Proof.
  revert k; induction l as [|a l IH]; intros k; simpl; [reflexivity|].
  now rewrite IH.
Qed.

Lemma imap_from_nth {A B : Type} (f : nat -> A -> B) (l : list A) (k i : nat)
  (da : A) (db : B) :
  (i < length l)%nat ->
  nth i (imap_from k f l) db = f (k + i)%nat (nth i l da).
Proof.
  revert k i; induction l as [|a l IH]; intros k i Hi; simpl in *; [lia|].
  destruct i as [|i].
  - now rewrite Nat.add_0_r.
  - rewrite (IH (S k) i) by lia. f_equal. lia.
Qed.

Lemma imap_nth {A B : Type} (f : nat -> A -> B) (l : list A) (i : nat)
  (da : A) (db : B) :
  (i < length l)%nat -> nth i (imap f l) db = f i (nth i l da).
Proof. intros Hi. unfold imap. now rewrite (imap_from_nth f l 0 i da db Hi). Qed.

(** ** The spike decision *)

Lemma fire_ge (thr cand : R) : thr <= cand -> fire thr cand = 1.
Proof. intros H. unfold fire. destruct (Rle_dec thr cand); [reflexivity | contradiction]. Qed.

Lemma fire_lt (thr cand : R) : cand < thr -> fire thr cand = 0.
Proof. intros H. unfold fire. destruct (Rle_dec thr cand); [lra | reflexivity]. Qed.

(** ** Shapes through the cell *)

Lemma shape2_imap_from (g : nat -> Vec -> Vec) (m : Mat) (k : nat) :
  (forall b row, length (g b row) = length row) ->
  shape2 (imap_from k g m) = shape2 m.
Proof.
  intros Hg. revert k. unfold shape2.
  induction m as [|row rest IH]; intros k; simpl; [reflexivity|].
  now rewrite Hg, IH.
Qed.

Lemma Leaky_forward_spk_shape (l : Leaky) (input_ mem : Mat) :
  shape2 (fst (Leaky_forward l input_ mem)) = shape2 input_.
Proof.
  unfold Leaky_forward, imap; simpl.
  apply shape2_imap_from. intros b row. apply imap_from_length.
Qed.

Lemma Leaky_forward_mem_shape (l : Leaky) (input_ mem : Mat) :
  shape2 (snd (Leaky_forward l input_ mem)) = shape2 input_.
Proof.
  unfold Leaky_forward, imap; simpl.
  apply shape2_imap_from. intros b row. apply imap_from_length.
Qed.

Lemma Leaky_forward_mem_at (l : Leaky) (input_ mem : Mat) (b j : nat) :
  (b < length input_)%nat ->
  (j < length (nth b input_ []))%nat ->
  at2 (snd (Leaky_forward l input_ mem)) b j =
  snd (lif_step (beta l j) (threshold l j) (reset_mechanism l)
         (at2 input_ b j) (at2 mem b j)).
Proof.
  intros Hb Hj. unfold Leaky_forward, at2; cbn [snd].
  rewrite (@imap_nth Vec Vec _ input_ b [] [] Hb).
  now rewrite (@imap_nth R R _ (nth b input_ []) j 0 0 Hj).
Qed.

(** C2.  For a LIF cell whose reset mode is "none" (as the output cell
    [li_out] is), every entry of the potential after a step is
    [beta * previous potential + input current], whatever the threshold
    and whether or not the neuron fired. *)
Theorem no_reset_potential_update (l : Leaky) (input_ mem : Mat) (b j : nat) :
  reset_mechanism l = ResetNone ->
  (b < length input_)%nat ->
  (j < length (nth b input_ []))%nat ->
  at2 (snd (Leaky_forward l input_ mem)) b j =
  beta l j * at2 mem b j + at2 input_ b j.
Proof.
  intros Hreset Hb Hj.
  rewrite Leaky_forward_mem_at by assumption.
  unfold lif_step. rewrite Hreset. reflexivity.
Qed.

Lemma no_reset_potential_update_witness :
  at2 (snd (Leaky_forward
              (li_out (Net_init ResetSubtract 50 128 sample_params))
              [[3]] [[8]])) 0 0 =
  beta (li_out (Net_init ResetSubtract 50 128 sample_params)) 0
  * at2 [[8]] 0 0 + at2 [[3]] 0 0.
Proof.
  apply (no_reset_potential_update
           (li_out (Net_init ResetSubtract 50 128 sample_params))
           [[3]] [[8]] 0 0).
  - reflexivity.
  - simpl; lia.
  - simpl; lia.
Defined.

(** C3.  One cell with [beta = 0.5], [threshold = 1.0], reset mode "none",
    started at potential [0.0] and fed the currents [2.0; 0.0; 0.0], goes
    through the potentials [2.0; 1.0; 0.5]. *)
Theorem single_pulse_decay :
  Leaky_run {| beta := fun _ => 0.5; threshold := fun _ => 1;
               reset_mechanism := ResetNone |}
    [ [[2]]; [[0]]; [[0]] ] [[0]]
  = [ [[2]]; [[1]]; [[0.5]] ].
Proof.
  unfold Leaky_run, Leaky_forward, imap, at2; simpl.
  repeat f_equal; lra.
Qed.

(** ** The hidden stage *)

(** C1.  The claim that every stage computes its spikes with its own cell
    does not hold of the code.  On the one-neuron network [sample_params]
    (hidden threshold 0.5, output threshold 1.0) and the one-step input 1.0,
    the hidden current is 0.75: the stage's own cell [lif_hidden] would fire
    and the recorded potential would be 1.0, but [forward] runs [li_out] on
    it, which stays silent, and records 0.0. *)
Theorem hidden_stage_runs_output_cell (drm : ResetMechanism) :
  forward (Net_init drm 1 1 sample_params) [[[1]]] = Ok [[[0]]] /\
  forward_own_cells (Net_init drm 1 1 sample_params) [[[1]]] = Ok [[[1]]].
Proof.
  split.
  - unfold forward. run_forward.
    rewrite (fire_ge 0.5) by lra.
    rewrite (fire_lt 1) by lra.
    repeat f_equal; lra.
  - unfold forward_own_cells. run_forward.
    rewrite (fire_ge 0.5 (0.5 * 0 + (1 * 1 + 0 + 0))) by lra.
    rewrite (fire_ge 0.5) by lra.
    repeat f_equal; lra.
Qed.

Lemma loop_body_with_lif_hidden (net : Net) (l : Leaky) (x : Tensor3) :
  loop_body (with_lif_hidden net l) x = loop_body net x.
Proof. reflexivity. Qed.

Lemma loop_body_own_cells_li_out (net : Net) (x : Tensor3) :
  loop_body_own_cells (with_lif_hidden net (li_out net)) x = loop_body net x.
Proof. reflexivity. Qed.

(** C8.  The cell [lif_hidden] is built by the constructor but [forward]
    never runs it: it only supplies the initial potential [mem_2], the
    result of [forward] is the same whatever cell the attribute holds, and
    [forward] is the three-stage composition whose hidden cell is the output
    cell [li_out]. *)
Theorem lif_hidden_never_invoked (net : Net) (x : Tensor3) :
  mem_2 (init_state net) = init_leaky (lif_hidden net) /\
  (forall l : Leaky, forward (with_lif_hidden net l) x = forward net x) /\
  forward net x = forward_own_cells (with_lif_hidden net (li_out net)) x.
Proof.
  split; [reflexivity|]. split.
  - intros l. unfold forward.
    now rewrite loop_body_with_lif_hidden.
  - unfold forward, forward_own_cells.
    now rewrite loop_body_own_cells_li_out.
Qed.

(** ** The time loop reads the first [timesteps] entries only *)

Lemma for_each_ext {S : Type} (steps : list nat) (f g : nat -> S -> result S)
  (st : S) :
  (forall step s, In step steps -> f step s = g step s) ->
  for_each steps f st = for_each steps g st.
Proof.
  revert st; induction steps as [|a steps IH]; intros st Hfg; simpl.
  - reflexivity.
  - rewrite (Hfg a st) by now left.
    destruct (g a st) as [st'|e]; simpl; [|reflexivity].
    apply IH. intros step s Hin. apply Hfg. now right.
Qed.

Lemma in_range (n : Z) (step : nat) :
  In step (range n) <-> (Z.of_nat step < n)%Z.
Proof. unfold range. rewrite in_seq. lia. Qed.

Lemma loop_body_same_entry (net : Net) (x y : Tensor3) (step : nat)
  (st : LoopState) :
  nth_error x step = nth_error y step ->
  loop_body net x step st = loop_body net y step st.
Proof. intros H. unfold loop_body, index0. now rewrite H. Qed.

(** C10.  The result of [forward] depends on the input through its entries
    [0 .. timesteps-1] only: two inputs that agree there give the same
    result with the same network, whatever follows in either of them. *)
Theorem forward_reads_first_timesteps (net : Net) (x y : Tensor3) :
  (forall step : nat,
      (Z.of_nat step < timesteps net)%Z -> nth_error x step = nth_error y step) ->
  forward net x = forward net y.
Proof.
  intros Hagree. unfold forward.
  rewrite (for_each_ext _ (loop_body net x) (loop_body net y)); [reflexivity|].
  intros step s Hin. apply loop_body_same_entry, Hagree.
  now apply in_range.
Qed.

Lemma forward_reads_first_timesteps_witness :
  forward (Net_init ResetSubtract 1 1 sample_params) [ [[1]] ] =
  forward (Net_init ResetSubtract 1 1 sample_params) [ [[1]]; [[7]]; [[9]] ].
Proof.
  apply (forward_reads_first_timesteps
           (Net_init ResetSubtract 1 1 sample_params)
           [ [[1]] ] [ [[1]]; [[7]]; [[9]] ]).
  intros step Hstep. cbn [timesteps Net_init] in Hstep.
  destruct step as [|step]; [reflexivity | lia].
Defined.

(** ** Shapes through the network *)

Lemma shape2_length (m : Mat) (F B : nat) :
  shape2 m = repeat F B -> length m = B.
Proof.
  intros H. apply (f_equal (@length nat)) in H.
  unfold shape2 in H. now rewrite length_map, repeat_length in H.
Qed.

Lemma forallb_width (m : Mat) (F B : nat) :
  shape2 m = repeat F B ->
  forallb (fun v => Nat.eqb (length v) F) m = true.
Proof.
  revert B; induction m as [|v m IH]; intros B H; simpl; [reflexivity|].
  destruct B as [|B]; simpl in H; [discriminate|].
  injection H as Hv Hm. rewrite Hv, Nat.eqb_refl. simpl. now apply (IH B).
Qed.

Lemma Linear_forward_shape (l : Linear) (x : Mat) (B : nat) :
  shape2 x = repeat (in_features l) B ->
  exists y, Linear_forward l x = Ok y /\
            shape2 y = repeat (out_features l) B.
Proof.
  intros Hx. unfold Linear_forward.
  rewrite (forallb_width x _ B Hx).
  eexists; split; [reflexivity|].
  rewrite <- (shape2_length x _ B Hx).
  unfold shape2. rewrite map_map.
  clear Hx. induction x as [|v x IH]; simpl; [reflexivity|].
  now rewrite length_map, length_seq, IH.
Qed.

Lemma same_shape_eq (a b : Mat) : shape2 a = shape2 b -> same_shape a b = true.
Proof.
  intros H. unfold same_shape.
  destruct (list_eq_dec Nat.eq_dec (shape2 a) (shape2 b)); [reflexivity | contradiction].
Qed.

Lemma torch_stack_uniform (ts : list Mat) (s : list nat) :
  ts <> [] -> Forall (fun m => shape2 m = s) ts -> torch_stack ts = Ok ts.
Proof.
  intros Hne Hall. destruct ts as [|t rest]; [contradiction|].
  unfold torch_stack. inversion Hall as [|? ? Ht Hrest]; subst.
  replace (forallb (same_shape t) rest) with true; [reflexivity|].
  symmetry. apply forallb_forall. intros m Hm.
  apply same_shape_eq. rewrite Forall_forall in Hrest.
  now rewrite (Hrest m Hm).
Qed.

Section NetworkShapes.

Variable drm : ResetMechanism.
Variables (T : Z) (H : nat) (p : NetParams).
Variable B : nat.

Let net := Net_init drm T H p.

Lemma loop_body_shape (x : Tensor3) (step : nat) (st : LoopState) (m : Mat) :
  nth_error x step = Some m ->
  shape2 m = repeat 1%nat B ->
  exists st' m3,
    loop_body net x step st = Ok st' /\
    mem_3_rec st' = mem_3_rec st ++ [m3] /\
    shape2 m3 = repeat 1%nat B.
Proof.
  intros Hnth Hm. unfold loop_body, index0. rewrite Hnth. cbn [bind].
  destruct (Linear_forward_shape (fc_in net) m B Hm) as (c1 & E1 & S1).
  rewrite E1. cbn [bind].
  destruct (Linear_forward_shape (fc_hidden net)
              (fst (Leaky_forward (lif_in net) c1 (mem_1 st))) B)
    as (c2 & E2 & S2).
  { now rewrite Leaky_forward_spk_shape. }
  rewrite E2. cbn [bind].
  destruct (Linear_forward_shape (fc_out net)
              (fst (Leaky_forward (li_out net) c2 (mem_2 st))) B)
    as (c3 & E3 & S3).
  { now rewrite Leaky_forward_spk_shape. }
  rewrite E3. cbn [bind].
  eexists; eexists. split; [reflexivity|]. split; [reflexivity|].
  now rewrite Leaky_forward_mem_shape.
Qed.

Lemma for_each_shape (x : Tensor3) (n k : nat) (st : LoopState) :
  (k + n <= length x)%nat ->
  Forall (fun m => shape2 m = repeat 1%nat B) x ->
  exists st' ms,
    for_each (seq k n) (loop_body net x) st = Ok st' /\
    mem_3_rec st' = mem_3_rec st ++ ms /\
    length ms = n /\
    Forall (fun m => shape2 m = repeat 1%nat B) ms.
Proof.
  intros Hlen Hx. revert k st Hlen.
  induction n as [|n IH]; intros k st Hlen; simpl.
  - exists st, []. rewrite app_nil_r. auto.
  - destruct (nth_error x k) as [m|] eqn:Hnth.
    2:{ apply nth_error_None in Hnth. lia. }
    assert (Hm : shape2 m = repeat 1%nat B).
    { rewrite Forall_forall in Hx. apply Hx. eapply nth_error_In; eauto. }
    destruct (loop_body_shape x k st m Hnth Hm) as (st1 & m3 & E1 & R1 & S1).
    rewrite E1. cbn [bind].
    destruct (IH (S k) st1) as (st' & ms & E2 & R2 & L2 & S2); [lia|].
    exists st', (m3 :: ms). split; [exact E2|]. split.
    + rewrite R2, R1, <- app_assoc. reflexivity.
    + split; [simpl; lia | now constructor].
Qed.

End NetworkShapes.

(** C4, as the code has it.  On an input tensor of shape
    [time][batch][1] with at least [timesteps] time steps, and with
    [timesteps >= 1], [forward] returns a tensor whose length is
    [timesteps], each entry of shape [batch][1]. *)
Theorem forward_output_length (drm : ResetMechanism) (T : Z) (H : nat)
  (p : NetParams) (x : Tensor3) (B : nat) :
  (1 <= T)%Z ->
  (T <= Z.of_nat (length x))%Z ->
  Forall (fun m => shape2 m = repeat 1%nat B) x ->
  exists out,
    forward (Net_init drm T H p) x = Ok out /\
    Z.of_nat (length out) = T /\
    Forall (fun m => shape2 m = repeat 1%nat B) out.
Proof.
  intros HT Hlen Hx. unfold forward, range. cbn [timesteps Net_init].
  destruct (for_each_shape drm T H p B x (Z.to_nat T) 0 (init_state (Net_init drm T H p)))
    as (st' & ms & E & R & L & S); [lia | exact Hx |].
  rewrite E. cbn [bind]. rewrite R. simpl app.
  exists ms. split; [|split; [lia | exact S]].
  apply torch_stack_uniform with (s := repeat 1%nat B); [|exact S].
  intros ->. simpl in L. lia.
Qed.

Lemma forward_output_length_witness :
  exists out,
    forward (Net_init ResetSubtract 1 1 sample_params) [ [[1]; [0]] ] = Ok out /\
    Z.of_nat (length out) = 1%Z /\
    Forall (fun m => shape2 m = repeat 1%nat 2) out.
Proof.
  apply (forward_output_length ResetSubtract 1 1 sample_params [ [[1]; [0]] ] 2).
  - lia.
  - simpl; lia.
  - repeat constructor.
Defined.

(** C4, as stated, fails: with [timesteps = 0] the final [torch.stack] is
    given an empty list and raises; with fewer input steps than
    [timesteps], indexing the input raises; with two features per sample
    instead of one, the input affine map raises. *)
Lemma forward_output_length_counterexample :
  forward (Net_init ResetSubtract 0 1 sample_params) [] = Raise RuntimeError /\
  forward (Net_init ResetSubtract 2 1 sample_params) [ [[1]] ] = Raise IndexError /\
  forward (Net_init ResetSubtract 1 1 sample_params) [ [[1; 2]] ]
  = Raise RuntimeError.
Proof.
  split; [|split].
  - reflexivity.
  - unfold forward. cbn [timesteps Net_init].
    change (range 2) with [0%nat; 1%nat].
    reflexivity.
  - reflexivity.
Qed.

(** ** Silence on zero input *)








Lemma forward_with_fire (net : Net) (x : Tensor3) :
  forward_with fire net x = forward net x.
Proof. reflexivity. Qed.




Section ZeroInput.

Variable spike_fn : R -> R -> R.
Variable drm : ResetMechanism.
Variables (T : Z) (H : nat) (p : NetParams).
Variable B : nat.

Hypothesis fc_in_unbiased : forall j, (j < H)%nat -> fc_in_bias p j = 0.
Hypothesis fc_hidden_unbiased : forall j, (j < H)%nat -> fc_hidden_bias p j = 0.
Hypothesis fc_out_unbiased : fc_out_bias p 0 = 0.

(** No neuron fires at rest, that is at potential zero. *)
Hypothesis lif_in_silent : forall j, (j < H)%nat -> spike_fn (thr_in p j) 0 = 0.
Hypothesis li_out_silent : spike_fn 1 0 = 0.

Let net := Net_init drm T H p.





End ZeroInput.




(** ** The surrogate spike *)

Lemma exp_le (u v : R) : u <= v -> exp u <= exp v.
Proof.
  intros [Hlt | ->]; [left; now apply exp_increasing | right; reflexivity].
Qed.

Lemma inv_one_plus (E : R) :
  0 < E -> 0 < 1 / (1 + E) < 1 /\ 1 / (1 + E) * (1 + E) = 1.
Proof.
  intros HE.
  assert (Hy : 0 < 1 / (1 + E)).
  { unfold Rdiv. rewrite Rmult_1_l. apply Rinv_0_lt_compat. lra. }
  assert (Hmul : 1 / (1 + E) * (1 + E) = 1) by (field; lra).
  assert (HEy : 0 < E * (1 / (1 + E))) by now apply Rmult_lt_0_compat.
  repeat split; [exact Hy | lra | exact Hmul].
Qed.

Lemma surrogate_spike_decay (slope thr eps : R) :
  0 < slope -> 0 < eps ->
  slope * (- ln eps / slope) = - ln eps.
Proof. intros Hs _. field. lra. Qed.

(** C7.  For a positive slope the surrogate spike is monotonic in the
    candidate potential, lies strictly between 0 and 1 everywhere (it is
    1/2 at the threshold), and comes as close to 0 as wanted far enough
    below the threshold and as close to 1 as wanted far enough above. *)
Theorem surrogate_spike_sigmoid (slope thr : R) :
  0 < slope ->
  (forall u v, u <= v ->
     surrogate_spike slope thr u <= surrogate_spike slope thr v) /\
  (forall u, 0 < surrogate_spike slope thr u < 1) /\
  surrogate_spike slope thr thr = 1 / 2 /\
  (forall eps, 0 < eps -> exists M, forall u,
       u <= thr - M -> surrogate_spike slope thr u < eps) /\
  (forall eps, 0 < eps -> exists M, forall u,
       thr + M <= u -> 1 - eps < surrogate_spike slope thr u).
Proof.
  intros Hslope. unfold surrogate_spike.
  split; [|split; [|split; [|split]]].
  - intros u v Huv.
    assert (HE : exp (- (slope * (v - thr))) <= exp (- (slope * (u - thr)))).
    { apply exp_le. nra. }
    pose proof (exp_pos (- (slope * (v - thr)))) as Hv.
    unfold Rdiv. rewrite !Rmult_1_l.
    apply Rinv_le_contravar; lra.
  - intros u. apply inv_one_plus, exp_pos.
  - replace (- (slope * (thr - thr))) with 0 by ring.
    rewrite exp_0. lra.
  - intros eps Heps. exists (- ln eps / slope). intros u Hu.
    pose proof (surrogate_spike_decay slope thr eps Hslope Heps) as HM.
    assert (HE : / eps <= exp (- (slope * (u - thr)))).
    { rewrite <- (exp_ln eps) at 1 by exact Heps.
      rewrite <- exp_Ropp. apply exp_le. nra. }
    set (E := exp (- (slope * (u - thr)))) in *.
    assert (Hinv : 0 < / eps) by now apply Rinv_0_lt_compat.
    unfold Rdiv. rewrite Rmult_1_l.
    rewrite <- (Rinv_inv eps).
    apply Rinv_lt_contravar; [|lra].
    apply Rmult_lt_0_compat; lra.
  - intros eps Heps. exists (- ln eps / slope). intros u Hu.
    pose proof (surrogate_spike_decay slope thr eps Hslope Heps) as HM.
    assert (HE : exp (- (slope * (u - thr))) <= eps).
    { rewrite <- (exp_ln eps) by exact Heps. apply exp_le. nra. }
    pose proof (exp_pos (- (slope * (u - thr)))) as Hpos.
    set (E := exp (- (slope * (u - thr)))) in *.
    destruct (inv_one_plus E Hpos) as ((Hy0 & Hy1) & Hmul).
    assert (HEy : E * (1 / (1 + E)) < E * 1)
      by (apply Rmult_lt_compat_l; lra).
    lra.
Qed.

Lemma surrogate_spike_sigmoid_witness :
  (forall u v, u <= v -> surrogate_spike 25 1 u <= surrogate_spike 25 1 v) /\
  (forall u, 0 < surrogate_spike 25 1 u < 1) /\
  surrogate_spike 25 1 1 = 1 / 2 /\
  (forall eps, 0 < eps -> exists M, forall u,
       u <= 1 - M -> surrogate_spike 25 1 u < eps) /\
  (forall eps, 0 < eps -> exists M, forall u,
       1 + M <= u -> 1 - eps < surrogate_spike 25 1 u).
Proof.
  apply (surrogate_spike_sigmoid 25 1). lra.
Defined.

(** ** The dataset constructor *)

Lemma linspace_length (a b : R) (steps : Z) :
  (0 <= steps)%Z ->
  exists v, linspace a b steps = Ok v /\ length v = Z.to_nat steps.
Proof.
  intros Hsteps. unfold linspace.
  destruct (steps <? 0)%Z eqn:E; [apply Z.ltb_lt in E; lia|].
  eexists; split; [reflexivity|].
  now rewrite length_map, length_seq.
Qed.

Lemma shape2_view_column (v : Vec) :
  shape2 (view_column v) = repeat 1%nat (length v).
Proof.
  unfold shape2, view_column. rewrite map_map.
  induction v as [|a v IH]; simpl; [reflexivity | now f_equal].
Qed.

Lemma torch_stack_dim1_uniform (ts : list Mat) (s : list nat) :
  ts <> [] -> Forall (fun m => shape2 m = s) ts ->
  exists r, torch_stack_dim1 ts = Ok r.
Proof.
  intros Hne Hall. destruct ts as [|t rest]; [contradiction|].
  unfold torch_stack_dim1. inversion Hall as [|? ? Ht Hrest]; subst.
  replace (forallb (same_shape t) rest) with true; [eexists; reflexivity|].
  symmetry. apply forallb_forall. intros m Hm.
  apply same_shape_eq. rewrite Forall_forall in Hrest.
  now rewrite (Hrest m Hm).
Qed.

Lemma feature_loop (rand : nat -> R) (timesteps : Z) (n k : nat)
  (lst : list Mat) :
  (0 <= timesteps)%Z ->
  exists fs,
    for_each (seq k n)
      (fun idx feature_lst =>
         lin_vec <- linspace 0 (rand idx) timesteps ;;
         Ok (feature_lst ++ [view_column lin_vec])) lst = Ok (lst ++ fs) /\
    length fs = n /\
    Forall (fun m => shape2 m = repeat 1%nat (Z.to_nat timesteps)) fs.
Proof.
  intros HT. revert k lst. induction n as [|n IH]; intros k lst; simpl.
  - exists []. rewrite app_nil_r. auto.
  - destruct (linspace_length 0 (rand k) timesteps HT) as (v & Ev & Lv).
    rewrite Ev. cbn [bind].
    destruct (IH (S k) (lst ++ [view_column v])) as (fs & E & L & S).
    exists (view_column v :: fs). split; [|split].
    + rewrite E, <- app_assoc. reflexivity.
    + simpl; lia.
    + constructor; [|exact S]. now rewrite shape2_view_column, Lv.
Qed.

(** C9, as the code has it.  With at least one sample and a non-negative
    number of time steps, a mode string other than "linear" and "sqrt"
    makes the constructor raise [NotImplementedError], and an accepted mode
    makes it return a dataset whose [__len__] is [num_samples]. *)
Theorem RegressionDataset_init_modes (rand : nat -> R)
  (timesteps num_samples : Z) (mode : string) :
  (0 <= timesteps)%Z ->
  (1 <= num_samples)%Z ->
  (mode <> "linear"%string -> mode <> "sqrt"%string ->
   RegressionDataset_init rand timesteps num_samples mode =
   Raise (NotImplementedError "'linear', 'sqrt'")) /\
  (mode = "linear"%string \/ mode = "sqrt"%string ->
   exists d, RegressionDataset_init rand timesteps num_samples mode = Ok d /\
             RegressionDataset_len d = num_samples).
Proof.
  intros HT Hn. unfold RegressionDataset_init, range.
  destruct (feature_loop rand timesteps (Z.to_nat num_samples) 0 [] HT)
    as (fs & E & L & S).
  rewrite E. cbn [bind app].
  destruct (torch_stack_dim1_uniform fs (repeat 1%nat (Z.to_nat timesteps)))
    as (feats & Ef); [| exact S |].
  { intros ->. simpl in L. lia. }
  rewrite Ef. cbn [bind].
  split.
  - intros Hlin Hsqrt.
    apply String.eqb_neq in Hlin, Hsqrt. now rewrite Hlin, Hsqrt.
  - intros [-> | ->]; cbn [String.eqb]; eexists; split; reflexivity.
Qed.

Lemma RegressionDataset_init_modes_witness :
  RegressionDataset_init (fun _ => 0.5) 50 1 "tanh" =
  Raise (NotImplementedError "'linear', 'sqrt'") /\
  exists d, RegressionDataset_init (fun _ => 0.5) 50 1 "sqrt" = Ok d /\
            RegressionDataset_len d = 1%Z.
Proof.
  split.
  - apply (RegressionDataset_init_modes (fun _ => 0.5) 50 1 "tanh");
      [lia | lia | discriminate | discriminate].
  - apply (RegressionDataset_init_modes (fun _ => 0.5) 50 1 "sqrt");
      [lia | lia | right; reflexivity].
Defined.

(** C9, as stated, fails: with no sample to generate, [torch.stack] is
    given an empty list and the constructor raises [RuntimeError], for an
    accepted mode as for an unknown one; so does [torch.linspace] on a
    negative number of time steps. *)
Lemma RegressionDataset_init_counterexample :
  RegressionDataset_init (fun _ => 0.5) 50 0 "linear" = Raise RuntimeError /\
  RegressionDataset_init (fun _ => 0.5) 50 0 "cubic" = Raise RuntimeError /\
  RegressionDataset_init (fun _ => 0.5) (-1) 1 "sqrt" = Raise RuntimeError.
Proof. repeat split. Qed.

(* ================================================================= *)
(** * Further properties of the code *)

(** ** Outcomes of the forward pass *)

Lemma for_each_app {S : Type} (a b : list nat) (f : nat -> S -> result S)
  (st : S) :
  for_each (a ++ b) f st = (st' <- for_each a f st ;; for_each b f st').
Proof.
  revert st; induction a as [|s a IH]; intros st; simpl; [reflexivity|].
  destruct (f s st) as [st1|e]; simpl; [apply IH | reflexivity].
Qed.

Lemma forward_no_steps (net : Net) (x : Tensor3) :
  (timesteps net <= 0)%Z -> forward net x = Raise RuntimeError.
Proof.
  intros HT. unfold forward, range.
  replace (Z.to_nat (timesteps net)) with 0%nat by lia.
  reflexivity.
Qed.

Lemma forward_shape_ok (drm : ResetMechanism) (T : Z) (H : nat)
  (p : NetParams) (x : Tensor3) (B : nat) :
  (1 <= T)%Z ->
  (T <= Z.of_nat (length x))%Z ->
  Forall (fun m => shape2 m = repeat 1%nat B) x ->
  exists out,
    forward (Net_init drm T H p) x = Ok out /\
    length out = Z.to_nat T /\
    Forall (fun m => shape2 m = repeat 1%nat B) out.
Proof.
  intros HT Hlen Hx. unfold forward, range. cbn [timesteps Net_init].
  destruct (for_each_shape drm T H p B x (Z.to_nat T) 0
              (init_state (Net_init drm T H p)))
    as (st' & ms & E & R & L & S); [lia | exact Hx |].
  rewrite E. cbn [bind]. rewrite R. simpl app.
  exists ms. split; [|split; [exact L | exact S]].
  apply torch_stack_uniform with (s := repeat 1%nat B); [|exact S].
  intros ->. simpl in L. lia.
Qed.

Lemma forward_index_error (drm : ResetMechanism) (T : Z) (H : nat)
  (p : NetParams) (x : Tensor3) (B : nat) :
  (Z.of_nat (length x) < T)%Z ->
  Forall (fun m => shape2 m = repeat 1%nat B) x ->
  forward (Net_init drm T H p) x = Raise IndexError.
Proof.
  intros Hlen Hx. unfold forward, range. cbn [timesteps Net_init].
  replace (Z.to_nat T) with (length x + S (Z.to_nat T - S (length x)))%nat by lia.
  rewrite seq_app, for_each_app.
  destruct (for_each_shape drm T H p B x (length x) 0
              (init_state (Net_init drm T H p)))
    as (st' & ms & E & _); [lia | exact Hx |].
  rewrite E. cbn [bind]. simpl seq. simpl for_each.
  unfold loop_body at 1, index0.
  replace (nth_error x (length x)) with (@None Mat); [reflexivity|].
  symmetry. apply nth_error_None. lia.
Qed.

Lemma forward_width_error (drm : ResetMechanism) (T : Z) (H : nat)
  (p : NetParams) (m : Mat) (x : Tensor3) (row : Vec) :
  (1 <= T)%Z ->
  In row m ->
  length row <> 1%nat ->
  forward (Net_init drm T H p) (m :: x) = Raise RuntimeError.
Proof.
  intros HT Hrow Hwidth. unfold forward, range. cbn [timesteps Net_init].
  replace (Z.to_nat T) with (S (Z.to_nat T - 1)) by lia.
  simpl seq. simpl for_each.
  unfold loop_body at 1, index0. simpl nth_error. cbn [bind].
  unfold Linear_forward at 1. cbn [fc_in Net_init in_features].
  replace (forallb (fun v => Nat.eqb (length v) 1) m) with false; [reflexivity|].
  symmetry. apply not_true_is_false. intros Hall.
  rewrite forallb_forall in Hall. specialize (Hall row Hrow).
  apply Nat.eqb_eq in Hall. contradiction.
Qed.

(** X1.  With a number of time steps that is zero or negative, [forward] raises
    [RuntimeError] on every network and every input: the loop does not run
    and [torch.stack] is given the empty record. *)
Theorem forward_raises_without_steps (net : Net) (x : Tensor3) :
  (timesteps net <= 0)%Z -> forward net x = Raise RuntimeError.
Proof. apply forward_no_steps. Qed.

Lemma forward_raises_without_steps_witness :
  forward (Net_init ResetSubtract (-3) 1 sample_params) [ [[1]]; [[2]] ]
  = Raise RuntimeError.
Proof.
  apply (forward_raises_without_steps
           (Net_init ResetSubtract (-3) 1 sample_params) [ [[1]]; [[2]] ]).
  simpl; lia.
Defined.

(** X2.  On an input of shape [time][batch][1] with fewer time steps than
    [timesteps], [forward] raises [IndexError]: the steps that are there are
    processed, then indexing the input fails. *)
Theorem forward_raises_on_short_input (drm : ResetMechanism) (T : Z) (H : nat)
  (p : NetParams) (x : Tensor3) (B : nat) :
  (Z.of_nat (length x) < T)%Z ->
  Forall (fun m => shape2 m = repeat 1%nat B) x ->
  forward (Net_init drm T H p) x = Raise IndexError.
Proof. apply forward_index_error. Qed.

Lemma forward_raises_on_short_input_witness :
  forward (Net_init ResetSubtract 50 128 sample_params) [ [[1]]; [[2]] ]
  = Raise IndexError.
Proof.
  apply (forward_raises_on_short_input ResetSubtract 50 128 sample_params
           [ [[1]]; [[2]] ] 1).
  - simpl; lia.
  - repeat constructor.
Defined.

(** X3.  When some sample of the first time step has a number of features other
    than 1, [forward] raises [RuntimeError] at the input affine map (for
    [timesteps >= 1]). *)
Theorem forward_raises_on_wrong_width (drm : ResetMechanism) (T : Z) (H : nat)
  (p : NetParams) (m : Mat) (x : Tensor3) (row : Vec) :
  (1 <= T)%Z ->
  In row m ->
  length row <> 1%nat ->
  forward (Net_init drm T H p) (m :: x) = Raise RuntimeError.
Proof. apply forward_width_error. Qed.

Lemma forward_raises_on_wrong_width_witness :
  forward (Net_init ResetSubtract 2 128 sample_params)
    [ [[1; 4]; [2; 3]]; [[0; 0]; [0; 0]] ]
  = Raise RuntimeError.
Proof.
  apply (forward_raises_on_wrong_width ResetSubtract 2 128 sample_params
           [[1; 4]; [2; 3]] [ [[0; 0]; [0; 0]] ] [2; 3]).
  - lia.
  - simpl; auto.
  - simpl; lia.
Defined.

(** X4.  On an input of shape [time][batch][1], [forward] returns a value
    exactly when [1 <= timesteps <= time]. *)
Theorem forward_succeeds_iff (drm : ResetMechanism) (T : Z) (H : nat)
  (p : NetParams) (x : Tensor3) (B : nat) :
  Forall (fun m => shape2 m = repeat 1%nat B) x ->
  ((exists out, forward (Net_init drm T H p) x = Ok out) <->
   (1 <= T <= Z.of_nat (length x))%Z).
Proof.
  intros Hx. split.
  - intros (out & Hout).
    destruct (Z.le_gt_cases T 0) as [H0|H0].
    { rewrite forward_no_steps in Hout by exact H0. discriminate. }
    destruct (Z.le_gt_cases T (Z.of_nat (length x))) as [H1|H1]; [lia|].
    rewrite (forward_index_error drm T H p x B) in Hout by (lia || exact Hx).
    discriminate.
  - intros [H1 H2].
    destruct (forward_shape_ok drm T H p x B H1 H2 Hx) as (out & E & _).
    now exists out.
Qed.

Lemma forward_succeeds_iff_witness :
  (exists out, forward (Net_init ResetSubtract 2 1 sample_params)
                 [ [[1]]; [[2]]; [[3]] ] = Ok out) <->
  (1 <= 2 <= Z.of_nat (length [ [[1]]; [[2]]; [[3]] ]))%Z.
Proof.
  apply (forward_succeeds_iff ResetSubtract 2 1 sample_params
           [ [[1]]; [[2]]; [[3]] ] 1).
  repeat constructor.
Defined.

(** ** Running for fewer time steps *)

Lemma loop_body_record (net : Net) (x : Tensor3) (step : nat)
  (st st' : LoopState) :
  loop_body net x step st = Ok st' ->
  exists m, mem_3_rec st' = mem_3_rec st ++ [m].
Proof.
  unfold loop_body. intros Hbody.
  destruct (index0 x step) as [m|e]; cbn [bind] in Hbody; [|discriminate].
  destruct (Linear_forward (fc_in net) m) as [c1|e];
    cbn [bind] in Hbody; [|discriminate].
  destruct (Linear_forward (fc_hidden net) _) as [c2|e];
    cbn [bind] in Hbody; [|discriminate].
  destruct (Linear_forward (fc_out net) _) as [c3|e];
    cbn [bind] in Hbody; [|discriminate].
  injection Hbody as <-. cbn [mem_3_rec]. eauto.
Qed.

Lemma for_each_record (net : Net) (x : Tensor3) (n k : nat)
  (st st' : LoopState) :
  for_each (seq k n) (loop_body net x) st = Ok st' ->
  exists ms, mem_3_rec st' = mem_3_rec st ++ ms /\ length ms = n.
Proof.
  revert k st; induction n as [|n IH]; intros k st Hrun; simpl in Hrun.
  - injection Hrun as <-. exists []. now rewrite app_nil_r.
  - destruct (loop_body net x k st) as [st1|e] eqn:Ebody;
      cbn [bind] in Hrun; [|discriminate].
    destruct (loop_body_record _ _ _ _ _ Ebody) as (m & Hm).
    destruct (IH _ _ Hrun) as (ms & Hms & Hlen).
    exists (m :: ms). split; [|simpl; lia].
    rewrite Hms, Hm, <- app_assoc. reflexivity.
Qed.

Lemma torch_stack_Ok (ts out : list Mat) :
  torch_stack ts = Ok out -> out = ts.
Proof.
  destruct ts as [|t rest]; simpl; [discriminate|].
  destruct (forallb (same_shape t) rest); [|discriminate].
  now intros [= <-].
Qed.

Lemma torch_stack_prefix (a b out : list Mat) :
  a <> [] -> torch_stack (a ++ b) = Ok out -> torch_stack a = Ok a.
Proof.
  intros Hne. destruct a as [|t a]; [contradiction|]. simpl.
  rewrite forallb_app.
  destruct (forallb (same_shape t) a); [reflexivity|].
  simpl. discriminate.
Qed.

Lemma forward_fewer_steps (net : Net) (T1 T2 : Z) (x : Tensor3)
  (out : Tensor3) :
  (1 <= T1 <= T2)%Z ->
  forward (with_timesteps net T2) x = Ok out ->
  forward (with_timesteps net T1) x = Ok (firstn (Z.to_nat T1) out).
Proof.
  intros HT. unfold forward, range. cbn [timesteps with_timesteps].
  change (loop_body (with_timesteps net T2) x) with (loop_body net x).
  change (loop_body (with_timesteps net T1) x) with (loop_body net x).
  change (init_state (with_timesteps net T2)) with (init_state net).
  change (init_state (with_timesteps net T1)) with (init_state net).
  replace (Z.to_nat T2)
    with (Z.to_nat T1 + (Z.to_nat T2 - Z.to_nat T1))%nat by lia.
  rewrite seq_app, for_each_app. intros Hrun.
  destruct (for_each (seq 0 (Z.to_nat T1)) (loop_body net x) (init_state net))
    as [st1|e] eqn:E1; cbn [bind] in Hrun; [|discriminate].
  destruct (for_each _ (loop_body net x) st1) as [st2|e] eqn:E2;
    cbn [bind] in Hrun; [|discriminate].
  cbn [bind].
  destruct (for_each_record _ _ _ _ _ _ E1) as (ms1 & R1 & L1).
  destruct (for_each_record _ _ _ _ _ _ E2) as (ms2 & R2 & L2).
  cbn [init_state mem_3_rec app] in R1.
  rewrite R2, R1 in Hrun.
  rewrite (torch_stack_Ok _ _ Hrun).
  rewrite <- L1, firstn_app, firstn_all, Nat.sub_diag, firstn_O, app_nil_r.
  rewrite R1. apply (torch_stack_prefix ms1 ms2 out); [|exact Hrun].
  intros ->. simpl in L1. lia.
Qed.

(** X5.  Running the same network for fewer time steps on the same input gives
    the beginning of the longer run: what is recorded at a step does not
    depend on the steps after it. *)
Theorem forward_fewer_timesteps_prefix (net : Net) (T1 T2 : Z) (x : Tensor3)
  (out : Tensor3) :
  (1 <= T1 <= T2)%Z ->
  forward (with_timesteps net T2) x = Ok out ->
  forward (with_timesteps net T1) x = Ok (firstn (Z.to_nat T1) out).
Proof. apply forward_fewer_steps. Qed.

Lemma forward_fewer_timesteps_prefix_witness :
  exists out,
    forward (with_timesteps (Net_init ResetSubtract 3 1 sample_params) 3)
      [ [[1]]; [[2]]; [[3]] ] = Ok out /\
    forward (with_timesteps (Net_init ResetSubtract 3 1 sample_params) 2)
      [ [[1]]; [[2]]; [[3]] ] = Ok (firstn (Z.to_nat 2) out).
Proof.
  destruct (forward_shape_ok ResetSubtract 3 1 sample_params
              [ [[1]]; [[2]]; [[3]] ] 1) as (out & E & _).
  - lia.
  - simpl; lia.
  - repeat constructor.
  - exists out. split; [exact E|].
    apply (forward_fewer_timesteps_prefix
             (Net_init ResetSubtract 3 1 sample_params) 2 3
             [ [[1]]; [[2]]; [[3]] ] out).
    + lia.
    + exact E.
Defined.

(** ** The samples of a batch do not interact *)

Lemma imap_from_ext {A C : Type} (f g : nat -> A -> C) (l : list A) (k : nat) :
  (forall i a, f i a = g i a) -> imap_from k f l = imap_from k g l.
Proof.
  intros Hfg. revert k; induction l as [|a l IH]; intros k; simpl.
  - reflexivity.
  - now rewrite Hfg, IH.
Qed.

Lemma same_shape_true (a b : Mat) : same_shape a b = true -> shape2 a = shape2 b.
Proof.
  unfold same_shape.
  destruct (list_eq_dec Nat.eq_dec (shape2 a) (shape2 b)); [auto | discriminate].
Qed.

Lemma shape2_row_length (m : Mat) (b : nat) :
  nth b (shape2 m) 0%nat = length (nth b m []).
Proof. unfold shape2. exact (map_nth (@length R) m [] b). Qed.

Lemma Linear_forward_row (l : Linear) (m y : Mat) (b : nat) :
  Linear_forward l m = Ok y ->
  (b < length m)%nat ->
  Linear_forward l (row_of b m) = Ok (row_of b y) /\ length y = length m.
Proof.
  unfold Linear_forward, row_of. intros Hy Hb.
  destruct (forallb (fun v => Nat.eqb (length v) (in_features l)) m) eqn:E;
    [|discriminate].
  injection Hy as <-. rewrite forallb_forall in E.
  cbn [forallb]. rewrite (E (nth b m [])) by now apply nth_In.
  cbn [andb map]. split; [|now rewrite length_map].
  set (g := fun v : Vec => map (fun j => dot (weight l j) v + bias l j)
                             (seq 0 (out_features l))).
  rewrite (nth_indep (map g m) [] (g [])) by now rewrite length_map.
  now rewrite (map_nth g).
Qed.

Lemma Leaky_forward_length (l : Leaky) (cur mem : Mat) :
  length (fst (Leaky_forward l cur mem)) = length cur.
Proof. unfold Leaky_forward, imap; cbn [fst]. apply imap_from_length. Qed.

Lemma Leaky_forward_row (l : Leaky) (cur mem mem' : Mat) (b : nat) :
  (b < length cur)%nat ->
  (forall j, at2 mem' 0 j = at2 mem b j) ->
  Leaky_forward l (row_of b cur) mem' =
  (row_of b (fst (Leaky_forward l cur mem)),
   row_of b (snd (Leaky_forward l cur mem))).
Proof.
  intros Hb Hmem. unfold Leaky_forward, row_of; cbn [fst snd].
  rewrite (@imap_nth Vec Vec _ cur b [] [] Hb).
  rewrite (@imap_nth Vec Vec _ cur b [] [] Hb).
  unfold imap; cbn [imap_from].
  apply f_equal2; apply (f_equal (fun r => [r]));
    apply imap_from_ext; intros j c; now rewrite Hmem.
Qed.

Lemma at2_row_of (m : Mat) (b j : nat) : at2 (row_of b m) 0 j = at2 m b j.
Proof. reflexivity. Qed.

Lemma torch_stack_rows (ts out : list Mat) (b : nat) :
  torch_stack ts = Ok out ->
  torch_stack (map (row_of b) ts) =
  Ok (map (row_of b) out).
Proof.
  intros Hout. rewrite (torch_stack_Ok _ _ Hout).
  destruct ts as [|t rest]; [discriminate|].
  cbn [torch_stack map] in *.
  destruct (forallb (same_shape t) rest) eqn:E; [|discriminate].
  match goal with
  | |- (if ?c then _ else _) = _ => destruct c eqn:E'; [reflexivity|]
  end.
  exfalso. apply not_true_iff_false in E'. apply E'. clear E'.
  apply forallb_forall. intros m' Hm'.
  apply in_map_iff in Hm' as (m & <- & Hm).
  rewrite forallb_forall in E. specialize (E m Hm).
  apply same_shape_true in E. apply same_shape_eq.
  change (shape2 (row_of b t)) with [length (nth b t [])].
  change (shape2 (row_of b m)) with [length (nth b m [])].
  now rewrite <- !shape2_row_length, E.
Qed.

Section BatchRows.

Variable net : Net.
Variable x : Tensor3.
Variable b : nat.

(** The state of the run on sample [b] alone holds row [b] of the state of
    the run on the whole batch. *)
Let rows_agree (st st' : LoopState) : Prop :=
  (forall j, at2 (mem_1 st') 0 j = at2 (mem_1 st) b j) /\
  (forall j, at2 (mem_2 st') 0 j = at2 (mem_2 st) b j) /\
  (forall j, at2 (mem_3 st') 0 j = at2 (mem_3 st) b j) /\
  mem_3_rec st' = map (row_of b) (mem_3_rec st).

Lemma loop_body_row (step : nat) (st st' st2 : LoopState) :
  loop_body net x step st = Ok st2 ->
  rows_agree st st' ->
  (forall m, nth_error x step = Some m -> (b < length m)%nat) ->
  exists st2',
    loop_body net (sample_of x b) step st' = Ok st2' /\ rows_agree st2 st2'.
Proof.
  unfold loop_body, index0, sample_of.
  intros Hbody (A1 & A2 & A3 & Arec) Hb.
  rewrite nth_error_map.
  destruct (nth_error x step) as [m|]; cbn [bind option_map] in *;
    [|discriminate].
  specialize (Hb m eq_refl).
  destruct (Linear_forward (fc_in net) m) as [c1|e] eqn:E1;
    cbn [bind] in Hbody; [|discriminate].
  destruct (Linear_forward_row _ _ _ b E1 Hb) as (R1 & L1).
  rewrite R1. cbn [bind].
  assert (Hb1 : (b < length c1)%nat) by lia.
  rewrite (Leaky_forward_row (lif_in net) c1 (mem_1 st) (mem_1 st') b Hb1 A1).
  cbn [fst snd].
  destruct (Linear_forward (fc_hidden net) _) as [c2|e] eqn:E2 in Hbody;
    cbn [bind] in Hbody; [|discriminate].
  destruct (Linear_forward_row _ _ _ b E2) as (R2 & L2).
  { now rewrite Leaky_forward_length. }
  rewrite R2. cbn [bind].
  assert (Hb2 : (b < length c2)%nat).
  { rewrite L2, Leaky_forward_length. exact Hb1. }
  rewrite (Leaky_forward_row (li_out net) c2 (mem_2 st) (mem_2 st') b Hb2 A2).
  cbn [fst snd].
  destruct (Linear_forward (fc_out net) _) as [c3|e] eqn:E3 in Hbody;
    cbn [bind] in Hbody; [|discriminate].
  destruct (Linear_forward_row _ _ _ b E3) as (R3 & L3).
  { now rewrite Leaky_forward_length. }
  rewrite R3. cbn [bind].
  assert (Hb3 : (b < length c3)%nat).
  { rewrite L3, Leaky_forward_length. exact Hb2. }
  rewrite (Leaky_forward_row (li_out net) c3 (mem_3 st) (mem_3 st') b Hb3 A3).
  cbn [fst snd].
  injection Hbody as <-.
  eexists. split; [reflexivity|].
  unfold rows_agree; cbn [mem_1 mem_2 mem_3 mem_3_rec].
  repeat split; try (intros j; apply at2_row_of).
  now rewrite Arec, map_app.
Qed.

Lemma for_each_row (steps : list nat) (st st' st2 : LoopState) :
  for_each steps (loop_body net x) st = Ok st2 ->
  rows_agree st st' ->
  Forall (fun m => (b < length m)%nat) x ->
  exists st2',
    for_each steps (loop_body net (sample_of x b)) st' = Ok st2' /\
    rows_agree st2 st2'.
Proof.
  intros Hrun Hagree Hx. revert st st' Hrun Hagree.
  induction steps as [|step steps IH]; intros st st' Hrun Hagree;
    simpl in *.
  - injection Hrun as <-. eauto.
  - destruct (loop_body net x step st) as [st1|e] eqn:Ebody;
      cbn [bind] in Hrun; [|discriminate].
    destruct (loop_body_row step st st' st1 Ebody Hagree) as (st1' & E1 & A1).
    { intros m Hm. rewrite Forall_forall in Hx. apply Hx.
      eapply nth_error_In; eauto. }
    rewrite E1. cbn [bind]. now apply (IH st1 st1').
Qed.

Lemma forward_row (out : Tensor3) :
  Forall (fun m => (b < length m)%nat) x ->
  forward net x = Ok out ->
  forward net (sample_of x b) = Ok (sample_of out b).
Proof.
  intros Hx. unfold forward. intros Hrun.
  destruct (for_each (range (timesteps net)) (loop_body net x) (init_state net))
    as [st2|e] eqn:E; cbn [bind] in Hrun; [|discriminate].
  destruct (for_each_row _ _ (init_state net) _ E) as (st2' & E' & A); [|exact Hx|].
  { unfold rows_agree, at2; cbn. repeat split; intros j; destruct b, j; auto. }
  rewrite E'. cbn [bind].
  destruct A as (_ & _ & _ & ->).
  now apply torch_stack_rows.
Qed.

End BatchRows.

(** X6.  The samples of a batch are processed independently: running [forward]
    on one sample of the batch alone gives that sample's part of the result
    of the whole batch. *)
Theorem forward_batch_independent (net : Net) (x : Tensor3) (b : nat)
  (out : Tensor3) :
  Forall (fun m => (b < length m)%nat) x ->
  forward net x = Ok out ->
  forward net (sample_of x b) = Ok (sample_of out b).
Proof. apply forward_row. Qed.

Lemma forward_batch_independent_witness :
  exists out,
    forward (Net_init ResetSubtract 2 1 sample_params)
      [ [[1]; [4]]; [[2]; [5]] ] = Ok out /\
    forward (Net_init ResetSubtract 2 1 sample_params)
      (sample_of [ [[1]; [4]]; [[2]; [5]] ] 1) = Ok (sample_of out 1).
Proof.
  destruct (forward_shape_ok ResetSubtract 2 1 sample_params
              [ [[1]; [4]]; [[2]; [5]] ] 2) as (out & E & _).
  - lia.
  - simpl; lia.
  - repeat constructor.
  - exists out. split; [exact E|].
    apply (forward_batch_independent
             (Net_init ResetSubtract 2 1 sample_params)
             [ [[1]; [4]]; [[2]; [5]] ] 1 out).
    + repeat constructor.
    + exact E.
Defined.

(** ** What the dataset holds *)

Lemma nth_map_seq {C : Type} (f : nat -> C) (n i : nat) (d : C) :
  (i < n)%nat -> nth i (map f (seq 0 n)) d = f i.
Proof.
  intros Hi.
  rewrite (nth_indep _ d (f 0%nat)) by now rewrite length_map, length_seq.
  rewrite (map_nth f). now rewrite seq_nth.
Qed.

Lemma at3_table (Tn n : nat) (h : nat -> nat -> R) (t i : nat) :
  (t < Tn)%nat -> (i < n)%nat -> at3 (table Tn n h) t i 0 = h i t.
Proof.
  intros Ht Hi. unfold at3, at2, table.
  rewrite (@nth_map_seq Mat _ Tn t [] Ht).
  now rewrite (@nth_map_seq Vec _ n i [] Hi).
Qed.

Lemma tmap3_table (g : R -> R) (Tn n : nat) (h : nat -> nat -> R) :
  tmap3 g (table Tn n h) = table Tn n (fun idx t => g (h idx t)).
Proof.
  unfold tmap3, table. rewrite map_map.
  apply map_ext. intros t. now rewrite map_map.
Qed.

Lemma table_shape (Tn n : nat) (h : nat -> nat -> R) :
  length (table Tn n h) = Tn /\
  Forall (fun m => shape2 m = repeat 1%nat n) (table Tn n h).
Proof.
  unfold table. split; [now rewrite length_map, length_seq|].
  apply Forall_forall. intros m Hm.
  apply in_map_iff in Hm as (t & <- & _).
  unfold shape2. rewrite map_map. cbn [length].
  rewrite <- (length_seq n 0) at 2. generalize (seq 0 n).
  intros l; induction l; simpl; [reflexivity | now f_equal].
Qed.

Lemma linspace_ramp (end_ : R) (steps : Z) :
  (0 <= steps)%Z ->
  linspace 0 end_ steps = Ok (map (ramp end_ steps) (seq 0 (Z.to_nat steps))).
Proof.
  intros Hsteps. unfold linspace.
  destruct (steps <? 0)%Z eqn:E; [apply Z.ltb_lt in E; lia | reflexivity].
Qed.

Lemma feature_loop_ramp (rand : nat -> R) (timesteps : Z) (n k : nat)
  (lst : list Mat) :
  (0 <= timesteps)%Z ->
  for_each (seq k n)
    (fun idx feature_lst =>
       lin_vec <- linspace 0 (rand idx) timesteps ;;
       Ok (feature_lst ++ [view_column lin_vec])) lst =
  Ok (lst ++ map (fun idx =>
                    view_column (map (ramp (rand idx) timesteps)
                                   (seq 0 (Z.to_nat timesteps))))
             (seq k n)).
Proof.
  intros HT. revert k lst. induction n as [|n IH]; intros k lst; simpl.
  - now rewrite app_nil_r.
  - rewrite (linspace_ramp _ _ HT). cbn [bind].
    rewrite IH, <- app_assoc. reflexivity.
Qed.

Lemma view_column_nth (h : nat -> R) (Tn t : nat) :
  (t < Tn)%nat -> nth t (view_column (map h (seq 0 Tn))) [] = [h t].
Proof.
  intros Ht. unfold view_column. rewrite map_map.
  now rewrite (@nth_map_seq Vec _ Tn t [] Ht).
Qed.

Lemma torch_stack_dim1_columns (h : nat -> nat -> R) (Tn n : nat) :
  (1 <= n)%nat ->
  torch_stack_dim1
    (map (fun idx => view_column (map (h idx) (seq 0 Tn))) (seq 0 n))
  = Ok (table Tn n h).
Proof.
  intros Hn. destruct n as [|n]; [lia|].
  cbn [seq map torch_stack_dim1].
  match goal with
  | |- (if ?c then _ else _) = _ => destruct c eqn:E
  end.
  - apply (f_equal Ok). unfold table.
    assert (HL : length (view_column (map (h 0%nat) (seq 0 Tn))) = Tn)
      by (unfold view_column; now rewrite !length_map, length_seq).
    rewrite HL.
    apply map_ext_in. intros t Ht. apply in_seq in Ht.
    cbn [seq map]. apply f_equal2.
    + apply view_column_nth. lia.
    + rewrite map_map. apply map_ext. intros idx.
      apply view_column_nth. lia.
  - exfalso. apply not_true_iff_false in E. apply E. clear E.
    apply forallb_forall. intros m Hm.
    apply in_map_iff in Hm as (idx & <- & _).
    apply same_shape_eq.
    now rewrite !shape2_view_column, !length_map.
Qed.

Lemma RegressionDataset_init_value (rand : nat -> R)
  (timesteps num_samples : Z) (mode : string) :
  (0 <= timesteps)%Z ->
  (1 <= num_samples)%Z ->
  mode = "linear"%string \/ mode = "sqrt"%string ->
  let feats := table (Z.to_nat timesteps) (Z.to_nat num_samples)
                 (fun idx => ramp (rand idx) timesteps) in
  RegressionDataset_init rand timesteps num_samples mode =
  Ok {| num_samples := num_samples;
        features := feats;
        labels := tmap3 (label_of mode (rand (Z.to_nat num_samples))) feats |}.
Proof.
  intros HT Hn Hmode feats. unfold RegressionDataset_init, range.
  rewrite (feature_loop_ramp rand timesteps _ 0 [] HT). cbn [bind app].
  rewrite (torch_stack_dim1_columns (fun idx => ramp (rand idx) timesteps))
    by lia.
  cbn [bind]. fold feats.
  unfold label_of.
  destruct Hmode as [-> | ->]; reflexivity.
Qed.

Lemma ramp_scaled (end_ : R) (steps : Z) (t : nat) :
  ramp end_ steps t = INR t * (end_ / (IZR steps - 1)).
Proof. unfold ramp, Rdiv. ring. Qed.

Lemma ramp_start (end_ : R) (steps : Z) : ramp end_ steps 0 = 0.
Proof. rewrite ramp_scaled. simpl INR. ring. Qed.

Lemma INR_last_step (steps : Z) :
  (1 <= steps)%Z -> INR (Z.to_nat steps - 1) = IZR steps - 1.
Proof.
  intros Hs. rewrite INR_IZR_INZ, Nat2Z.inj_sub by lia.
  rewrite Z2Nat.id by lia. now rewrite minus_IZR.
Qed.

Lemma ramp_end (end_ : R) (steps : Z) :
  (2 <= steps)%Z -> ramp end_ steps (Z.to_nat steps - 1) = end_.
Proof.
  intros Hs. rewrite ramp_scaled, INR_last_step by lia.
  assert (2 <= IZR steps) by now apply IZR_le.
  field. lra.
Qed.

Lemma ramp_monotone (end_ : R) (steps : Z) (t1 t2 : nat) :
  0 <= end_ ->
  (t1 <= t2)%nat ->
  (t2 < Z.to_nat steps)%nat ->
  0 <= ramp end_ steps t1 <= ramp end_ steps t2 /\ ramp end_ steps t2 <= end_.
Proof.
  intros He H12 H2. rewrite !ramp_scaled.
  destruct (Z.eq_dec steps 1) as [-> | Hs].
  - replace t2 with 0%nat by lia. replace t1 with 0%nat by lia.
    simpl INR. lra.
  - assert (Hd : 0 < IZR steps - 1).
    { assert (2 <= IZR steps) by (apply IZR_le; lia). lra. }
    assert (Hq : 0 <= end_ / (IZR steps - 1)).
    { apply Rmult_le_pos; [exact He | left; now apply Rinv_0_lt_compat]. }
    pose proof (pos_INR t1) as P1.
    pose proof (le_INR t1 t2 H12) as P12.
    assert (P2 : INR t2 <= IZR steps - 1).
    { rewrite <- INR_last_step by lia. apply le_INR. lia. }
    assert (Hend : (IZR steps - 1) * (end_ / (IZR steps - 1)) = end_)
      by (field; lra).
    repeat split.
    + now apply Rmult_le_pos.
    + now apply Rmult_le_compat_r.
    + rewrite <- Hend at 2. now apply Rmult_le_compat_r.
Qed.

Lemma ramp_positive (end_ : R) (steps : Z) (t : nat) :
  0 < end_ ->
  (1 <= t)%nat ->
  (t < Z.to_nat steps)%nat ->
  0 < ramp end_ steps t.
Proof.
  intros He H1 H2. rewrite ramp_scaled.
  assert (Hd : 0 < IZR steps - 1).
  { assert (2 <= IZR steps) by (apply IZR_le; lia). lra. }
  apply Rmult_lt_0_compat.
  - apply lt_0_INR. lia.
  - apply Rmult_lt_0_compat; [exact He | now apply Rinv_0_lt_compat].
Qed.

(** X7.  A dataset built with at least one sample holds features and labels of
    shape [timesteps][num_samples][1]. *)
Theorem RegressionDataset_shapes (rand : nat -> R)
  (timesteps num_samples : Z) (mode : string) :
  (0 <= timesteps)%Z ->
  (1 <= num_samples)%Z ->
  mode = "linear"%string \/ mode = "sqrt"%string ->
  exists d,
    RegressionDataset_init rand timesteps num_samples mode = Ok d /\
    length (features d) = Z.to_nat timesteps /\
    Forall (fun m => shape2 m = repeat 1%nat (Z.to_nat num_samples))
      (features d) /\
    length (labels d) = Z.to_nat timesteps /\
    Forall (fun m => shape2 m = repeat 1%nat (Z.to_nat num_samples))
      (labels d).
Proof.
  intros HT Hn Hmode.
  eexists. split; [apply RegressionDataset_init_value; assumption|].
  cbn [features labels]. rewrite tmap3_table.
  repeat split; apply table_shape.
Qed.

Lemma RegressionDataset_shapes_witness :
  exists d,
    RegressionDataset_init (fun _ => 0.5) 50 3 "sqrt" = Ok d /\
    length (features d) = Z.to_nat 50 /\
    Forall (fun m => shape2 m = repeat 1%nat (Z.to_nat 3)) (features d) /\
    length (labels d) = Z.to_nat 50 /\
    Forall (fun m => shape2 m = repeat 1%nat (Z.to_nat 3)) (labels d).
Proof.
  apply (RegressionDataset_shapes (fun _ => 0.5) 50 3 "sqrt");
    [lia | lia | right; reflexivity].
Defined.

(** X8.  The feature of sample [idx] at time [t] is [t * end / (timesteps - 1)],
    where [end] is the [idx]-th random draw: a straight line through 0. *)
Theorem RegressionDataset_feature_values (rand : nat -> R)
  (timesteps num_samples : Z) (mode : string) :
  (0 <= timesteps)%Z ->
  (1 <= num_samples)%Z ->
  mode = "linear"%string \/ mode = "sqrt"%string ->
  exists d,
    RegressionDataset_init rand timesteps num_samples mode = Ok d /\
    forall t idx : nat,
      (t < Z.to_nat timesteps)%nat ->
      (idx < Z.to_nat num_samples)%nat ->
      at3 (features d) t idx 0 = INR t * (rand idx / (IZR timesteps - 1)).
Proof.
  intros HT Hn Hmode.
  eexists. split; [apply RegressionDataset_init_value; assumption|].
  intros t idx Ht Hidx. cbn [features].
  rewrite at3_table by assumption. apply ramp_scaled.
Qed.

Lemma RegressionDataset_feature_values_witness :
  exists d,
    RegressionDataset_init (fun _ => 0.5) 50 3 "linear" = Ok d /\
    forall t idx : nat,
      (t < Z.to_nat 50)%nat ->
      (idx < Z.to_nat 3)%nat ->
      at3 (features d) t idx 0 = INR t * (0.5 / (IZR 50 - 1)).
Proof.
  apply (RegressionDataset_feature_values (fun _ => 0.5) 50 3 "linear");
    [lia | lia | left; reflexivity].
Defined.

(** X9.  Every sample starts at 0; with two time steps or more it ends at its
    random draw [end], while the single step of a one-step sample is that
    0. *)
Theorem RegressionDataset_feature_endpoints (rand : nat -> R)
  (timesteps num_samples : Z) (mode : string) :
  (1 <= timesteps)%Z ->
  (1 <= num_samples)%Z ->
  mode = "linear"%string \/ mode = "sqrt"%string ->
  exists d,
    RegressionDataset_init rand timesteps num_samples mode = Ok d /\
    forall idx : nat,
      (idx < Z.to_nat num_samples)%nat ->
      at3 (features d) 0 idx 0 = 0 /\
      ((2 <= timesteps)%Z ->
       at3 (features d) (Z.to_nat timesteps - 1) idx 0 = rand idx).
Proof.
  intros HT Hn Hmode.
  eexists. split; [apply RegressionDataset_init_value; (assumption || lia)|].
  intros idx Hidx. cbn [features]. split.
  - rewrite at3_table by (assumption || lia). apply ramp_start.
  - intros H2. rewrite at3_table by (assumption || lia). now apply ramp_end.
Qed.

Lemma RegressionDataset_feature_endpoints_witness :
  exists d,
    RegressionDataset_init (fun _ => 0.5) 50 3 "linear" = Ok d /\
    forall idx : nat,
      (idx < Z.to_nat 3)%nat ->
      at3 (features d) 0 idx 0 = 0 /\
      ((2 <= 50)%Z -> at3 (features d) (Z.to_nat 50 - 1) idx 0 = 0.5).
Proof.
  apply (RegressionDataset_feature_endpoints (fun _ => 0.5) 50 3 "linear");
    [lia | lia | left; reflexivity].
Defined.

(** X10.  When the draws are not negative, every sample rises (weakly) with time
    and stays between 0 and its draw [end]. *)
Theorem RegressionDataset_features_monotone (rand : nat -> R)
  (timesteps num_samples : Z) (mode : string) :
  (0 <= timesteps)%Z ->
  (1 <= num_samples)%Z ->
  mode = "linear"%string \/ mode = "sqrt"%string ->
  (forall idx, 0 <= rand idx) ->
  exists d,
    RegressionDataset_init rand timesteps num_samples mode = Ok d /\
    forall t1 t2 idx : nat,
      (t1 <= t2)%nat ->
      (t2 < Z.to_nat timesteps)%nat ->
      (idx < Z.to_nat num_samples)%nat ->
      0 <= at3 (features d) t1 idx 0 <= at3 (features d) t2 idx 0 /\
      at3 (features d) t2 idx 0 <= rand idx.
Proof.
  intros HT Hn Hmode Hrand.
  eexists. split; [apply RegressionDataset_init_value; assumption|].
  intros t1 t2 idx H12 H2 Hidx. cbn [features].
  rewrite !at3_table by (assumption || lia).
  apply ramp_monotone; auto.
Qed.

Lemma RegressionDataset_features_monotone_witness :
  exists d,
    RegressionDataset_init (fun _ => 0.5) 50 3 "sqrt" = Ok d /\
    forall t1 t2 idx : nat,
      (t1 <= t2)%nat ->
      (t2 < Z.to_nat 50)%nat ->
      (idx < Z.to_nat 3)%nat ->
      0 <= at3 (features d) t1 idx 0 <= at3 (features d) t2 idx 0 /\
      at3 (features d) t2 idx 0 <= 0.5.
Proof.
  apply (RegressionDataset_features_monotone (fun _ => 0.5) 50 3 "sqrt");
    [lia | lia | right; reflexivity | intros idx; lra].
Defined.

Lemma tmap3_id (g : R -> R) (x : Tensor3) :
  (forall a, g a = a) -> tmap3 g x = x.
Proof.
  intros Hg. unfold tmap3.
  rewrite <- (map_id x) at 2. apply map_ext. intros m.
  rewrite <- (map_id m) at 2. apply map_ext. intros v.
  rewrite <- (map_id v) at 2. now apply map_ext.
Qed.

(** X11.  In mode "linear" the labels are the features. *)
Theorem RegressionDataset_linear_labels (rand : nat -> R)
  (timesteps num_samples : Z) :
  (0 <= timesteps)%Z ->
  (1 <= num_samples)%Z ->
  exists d,
    RegressionDataset_init rand timesteps num_samples "linear" = Ok d /\
    labels d = features d.
Proof.
  intros HT Hn.
  eexists. split; [apply RegressionDataset_init_value; auto|].
  cbn [features labels]. apply tmap3_id.
  intros a. unfold label_of. cbn [String.eqb]. simpl. ring.
Qed.

Lemma RegressionDataset_linear_labels_witness :
  exists d,
    RegressionDataset_init (fun _ => 0.5) 50 3 "linear" = Ok d /\
    labels d = features d.
Proof.
  apply (RegressionDataset_linear_labels (fun _ => 0.5) 50 3); lia.
Defined.

(** X12.  In mode "sqrt" every label is the square root of its feature times the
    slope, and the slope is the draw that follows the [num_samples] draws
    of the samples. *)
Theorem RegressionDataset_sqrt_labels (rand : nat -> R)
  (timesteps num_samples : Z) :
  (0 <= timesteps)%Z ->
  (1 <= num_samples)%Z ->
  exists d,
    RegressionDataset_init rand timesteps num_samples "sqrt" = Ok d /\
    forall t idx : nat,
      (t < Z.to_nat timesteps)%nat ->
      (idx < Z.to_nat num_samples)%nat ->
      at3 (labels d) t idx 0 =
      sqrt (at3 (features d) t idx 0 * rand (Z.to_nat num_samples)).
Proof.
  intros HT Hn.
  eexists. split; [apply RegressionDataset_init_value; auto|].
  intros t idx Ht Hidx. cbn [features labels].
  rewrite tmap3_table, !at3_table by assumption.
  reflexivity.
Qed.

Lemma RegressionDataset_sqrt_labels_witness :
  exists d,
    RegressionDataset_init (fun _ => 0.5) 50 3 "sqrt" = Ok d /\
    forall t idx : nat,
      (t < Z.to_nat 50)%nat ->
      (idx < Z.to_nat 3)%nat ->
      at3 (labels d) t idx 0 = sqrt (at3 (features d) t idx 0 * 0.5).
Proof.
  apply (RegressionDataset_sqrt_labels (fun _ => 0.5) 50 3); lia.
Defined.

(** X13.  In both modes the label of the first time step is 0 for every sample
    (the evaluation divides by the norm of the label and leaves the first
    step out). *)
Theorem RegressionDataset_first_label_zero (rand : nat -> R)
  (timesteps num_samples : Z) (mode : string) :
  (1 <= timesteps)%Z ->
  (1 <= num_samples)%Z ->
  mode = "linear"%string \/ mode = "sqrt"%string ->
  exists d,
    RegressionDataset_init rand timesteps num_samples mode = Ok d /\
    forall idx : nat,
      (idx < Z.to_nat num_samples)%nat -> at3 (labels d) 0 idx 0 = 0.
Proof.
  intros HT Hn Hmode.
  eexists. split; [apply RegressionDataset_init_value; (assumption || lia)|].
  intros idx Hidx. cbn [labels].
  rewrite tmap3_table, at3_table by (assumption || lia).
  rewrite ramp_start. unfold label_of.
  destruct (String.eqb mode "linear"); [ring|].
  rewrite Rmult_0_l. apply sqrt_0.
Qed.

Lemma RegressionDataset_first_label_zero_witness :
  exists d,
    RegressionDataset_init (fun _ => 0.5) 50 3 "sqrt" = Ok d /\
    forall idx : nat,
      (idx < Z.to_nat 3)%nat -> at3 (labels d) 0 idx 0 = 0.
Proof.
  apply (RegressionDataset_first_label_zero (fun _ => 0.5) 50 3 "sqrt");
    [lia | lia | right; reflexivity].
Defined.

(** X14.  When the draws are positive, the label of every sample is positive at
    every time step after the first. *)
Theorem RegressionDataset_later_labels_positive (rand : nat -> R)
  (timesteps num_samples : Z) (mode : string) :
  (0 <= timesteps)%Z ->
  (1 <= num_samples)%Z ->
  mode = "linear"%string \/ mode = "sqrt"%string ->
  (forall idx, 0 < rand idx) ->
  exists d,
    RegressionDataset_init rand timesteps num_samples mode = Ok d /\
    forall t idx : nat,
      (1 <= t)%nat ->
      (t < Z.to_nat timesteps)%nat ->
      (idx < Z.to_nat num_samples)%nat ->
      0 < at3 (labels d) t idx 0.
Proof.
  intros HT Hn Hmode Hrand.
  eexists. split; [apply RegressionDataset_init_value; assumption|].
  intros t idx H1 Ht Hidx. cbn [labels].
  rewrite tmap3_table, at3_table by assumption.
  pose proof (ramp_positive (rand idx) timesteps t (Hrand idx) H1 Ht) as Hpos.
  unfold label_of.
  destruct (String.eqb mode "linear"); [lra|].
  apply sqrt_lt_R0. apply Rmult_lt_0_compat; [exact Hpos | apply Hrand].
Qed.

Lemma RegressionDataset_later_labels_positive_witness :
  exists d,
    RegressionDataset_init (fun _ => 0.5) 50 3 "sqrt" = Ok d /\
    forall t idx : nat,
      (1 <= t)%nat ->
      (t < Z.to_nat 50)%nat ->
      (idx < Z.to_nat 3)%nat ->
      0 < at3 (labels d) t idx 0.
Proof.
  apply (RegressionDataset_later_labels_positive (fun _ => 0.5) 50 3 "sqrt");
    [lia | lia | right; reflexivity | intros idx; lra].
Defined.

(** X15.  The sizes are checked before the mode: with no sample to generate, or
    with a negative number of time steps, the constructor raises
    [RuntimeError] whatever the mode string is. *)
Theorem RegressionDataset_init_invalid_sizes (rand : nat -> R)
  (timesteps num_samples : Z) (mode : string) :
  (num_samples <= 0)%Z \/ (timesteps < 0)%Z ->
  RegressionDataset_init rand timesteps num_samples mode = Raise RuntimeError.
Proof.
  intros Hsizes. unfold RegressionDataset_init, range.
  destruct (Z.le_gt_cases num_samples 0) as [Hn|Hn].
  - replace (Z.to_nat num_samples) with 0%nat by lia. reflexivity.
  - destruct Hsizes as [Hn'|HT]; [lia|].
    replace (Z.to_nat num_samples) with (S (Z.to_nat num_samples - 1)) by lia.
    cbn [seq for_each]. unfold linspace at 1.
    apply Z.ltb_lt in HT. rewrite HT. reflexivity.
Qed.

Lemma RegressionDataset_init_invalid_sizes_witness :
  RegressionDataset_init (fun _ => 0.5) 50 (-2) "tanh" = Raise RuntimeError.
Proof.
  apply (RegressionDataset_init_invalid_sizes (fun _ => 0.5) 50 (-2) "tanh").
  left; lia.
Defined.

(** ** Serving samples and batches *)

Lemma view_column_map (h : nat -> R) (l : list nat) :
  view_column (map h l) = map (fun t => [h t]) l.
Proof. unfold view_column. apply map_map. Qed.

Lemma select_axis1_table (Tn n : nat) (h : nat -> nat -> R) (idx : Z) :
  (0 <= idx < Z.of_nat n)%Z ->
  select_axis1 n (table Tn n h) idx =
  Ok (view_column (map (h (Z.to_nat idx)) (seq 0 Tn))).
Proof.
  intros Hidx. unfold select_axis1.
  replace ((0 <=? idx) && (idx <? Z.of_nat n))%Z with true
    by (symmetry; apply andb_true_iff; split;
        [apply Z.leb_le | apply Z.ltb_lt]; lia).
  apply (f_equal Ok). rewrite view_column_map. unfold table.
  rewrite map_map. apply map_ext. intros t.
  apply (@nth_map_seq Vec). lia.
Qed.

Lemma select_axis1_negative (n : nat) (x : Tensor3) (idx : Z) :
  (- Z.of_nat n <= idx < 0)%Z ->
  select_axis1 n x idx = select_axis1 n x (idx + Z.of_nat n).
Proof.
  intros Hidx. unfold select_axis1.
  replace (0 <=? idx)%Z with false by (symmetry; apply Z.leb_gt; lia).
  replace (- Z.of_nat n <=? idx)%Z with true by (symmetry; apply Z.leb_le; lia).
  replace (idx <? 0)%Z with true by (symmetry; apply Z.ltb_lt; lia).
  replace (0 <=? idx + Z.of_nat n)%Z with true
    by (symmetry; apply Z.leb_le; lia).
  replace (idx + Z.of_nat n <? Z.of_nat n)%Z with true
    by (symmetry; apply Z.ltb_lt; lia).
  reflexivity.
Qed.

Lemma getitem_table (n : Z) (Tn : nat) (hF hL : nat -> nat -> R) (idx : Z) :
  (0 <= idx < n)%Z ->
  RegressionDataset_getitem
    {| num_samples := n;
       features := table Tn (Z.to_nat n) hF;
       labels := table Tn (Z.to_nat n) hL |} idx =
  Ok (view_column (map (hF (Z.to_nat idx)) (seq 0 Tn)),
      view_column (map (hL (Z.to_nat idx)) (seq 0 Tn))).
Proof.
  intros Hidx. unfold RegressionDataset_getitem. cbn [num_samples features labels].
  rewrite !select_axis1_table by lia. reflexivity.
Qed.

Lemma getitem_negative (d : RegressionDataset) (idx : Z) :
  (- num_samples d <= idx < 0)%Z ->
  RegressionDataset_getitem d idx =
  RegressionDataset_getitem d (idx + num_samples d).
Proof.
  intros Hidx. unfold RegressionDataset_getitem.
  rewrite !(select_axis1_negative _ _ idx) by lia.
  now rewrite Z2Nat.id by lia.
Qed.

(** X16.  [__getitem__] serves each sample as it was generated: for an index
    [0 <= idx < num_samples] it returns the [idx]-th line of
    [torch.linspace] as a column, with its labels, and the index
    [idx - num_samples] serves the same sample. *)
Theorem RegressionDataset_getitem_sample (rand : nat -> R)
  (timesteps num_samples : Z) (mode : string) (idx : Z) :
  (0 <= timesteps)%Z ->
  (0 <= idx < num_samples)%Z ->
  mode = "linear"%string \/ mode = "sqrt"%string ->
  exists d lin,
    RegressionDataset_init rand timesteps num_samples mode = Ok d /\
    linspace 0 (rand (Z.to_nat idx)) timesteps = Ok lin /\
    RegressionDataset_getitem d idx =
    Ok (view_column lin,
        view_column (map (label_of mode (rand (Z.to_nat num_samples))) lin)) /\
    RegressionDataset_getitem d (idx - num_samples) =
    RegressionDataset_getitem d idx.
Proof.
  intros HT Hidx Hmode.
  eexists. eexists.
  split; [apply RegressionDataset_init_value; (assumption || lia)|].
  split; [now apply linspace_ramp|].
  rewrite tmap3_table. split.
  - rewrite getitem_table by exact Hidx. now rewrite map_map.
  - rewrite getitem_negative by (cbn; lia).
    cbn. f_equal. lia.
Qed.

Lemma RegressionDataset_getitem_sample_witness :
  exists d lin,
    RegressionDataset_init (fun _ => 0.5) 50 3 "sqrt" = Ok d /\
    linspace 0 0.5 50 = Ok lin /\
    RegressionDataset_getitem d 2 =
    Ok (view_column lin, view_column (map (label_of "sqrt" 0.5) lin)) /\
    RegressionDataset_getitem d (2 - 3) = RegressionDataset_getitem d 2.
Proof.
  apply (RegressionDataset_getitem_sample (fun _ => 0.5) 50 3 "sqrt" 2);
    [lia | lia | right; reflexivity].
Defined.

Lemma map_result_Ok {A C : Type} (f : A -> result C) (g : A -> C)
  (l : list A) :
  (forall a, In a l -> f a = Ok (g a)) -> map_result f l = Ok (map g l).
Proof.
  induction l as [|a l IH]; intros Hfg; simpl; [reflexivity|].
  rewrite (Hfg a) by now left. cbn [bind].
  rewrite IH by (intros a' Ha'; apply Hfg; now right).
  reflexivity.
Qed.

Lemma firstn_skipn_map_seq {C : Type} (f : nat -> C) (n a k : nat) :
  (a + k <= n)%nat -> firstn k (skipn a (map f (seq 0 n))) = map f (seq a k).
Proof.
  intros Hak. rewrite skipn_map, firstn_map, skipn_seq. f_equal.
  replace (n - a)%nat with (k + (n - a - k))%nat by lia.
  rewrite seq_app. simpl Nat.add.
  rewrite <- (length_seq k a) at 1.
  now rewrite firstn_app, firstn_all, Nat.sub_diag, firstn_O, app_nil_r.
Qed.

Lemma samples_of_table (Tn n : nat) (h : nat -> nat -> R) (a k : nat) :
  (a + k <= n)%nat ->
  samples_of (table Tn n h) a k =
  map (fun t => map (fun idx => [h idx t]) (seq a k)) (seq 0 Tn).
Proof.
  intros Hak. unfold samples_of, table. rewrite map_map.
  apply map_ext. intros t. now apply firstn_skipn_map_seq.
Qed.

Lemma swapaxes01_columns (h : nat -> nat -> R) (Tn a k : nat) :
  (1 <= k)%nat ->
  swapaxes01 (map (fun idx => view_column (map (h idx) (seq 0 Tn))) (seq a k))
  = map (fun t => map (fun idx => [h idx t]) (seq a k)) (seq 0 Tn).
Proof.
  intros Hk. destruct k as [|k]; [lia|].
  unfold swapaxes01. cbn [seq map].
  assert (HL : length (view_column (map (h a) (seq 0 Tn))) = Tn)
    by (unfold view_column; now rewrite !length_map, length_seq).
  rewrite HL.
  apply map_ext_in. intros t Ht. apply in_seq in Ht.
  apply f_equal2.
  - apply view_column_nth. lia.
  - rewrite map_map. apply map_ext. intros idx.
    apply view_column_nth. lia.
Qed.

Lemma torch_stack_columns (h : nat -> nat -> R) (Tn a k : nat) :
  (1 <= k)%nat ->
  torch_stack (map (fun idx => view_column (map (h idx) (seq 0 Tn))) (seq a k))
  = Ok (map (fun idx => view_column (map (h idx) (seq 0 Tn))) (seq a k)).
Proof.
  intros Hk. apply torch_stack_uniform with (s := repeat 1%nat Tn).
  - destruct k; [lia | discriminate].
  - apply Forall_forall. intros m Hm.
    apply in_map_iff in Hm as (idx & <- & _).
    now rewrite shape2_view_column, !length_map, length_seq.
Qed.

Lemma batch_in_range (n k : nat) (batch_size : positive) :
  (k < n / Pos.to_nat batch_size)%nat ->
  (k * Pos.to_nat batch_size + Pos.to_nat batch_size <= n)%nat.
Proof.
  intros Hk. pose proof (Pos2Nat.is_pos batch_size) as Hpos.
  pose proof (Nat.Div0.mul_div_le n (Pos.to_nat batch_size)) as Hdiv.
  nia.
Qed.

Lemma DataLoader_batch_table (n : Z) (Tn : nat) (hF hL : nat -> nat -> R)
  (batch_size : positive) (k : nat) :
  (k * Pos.to_nat batch_size + Pos.to_nat batch_size <= Z.to_nat n)%nat ->
  DataLoader_batch
    {| num_samples := n;
       features := table Tn (Z.to_nat n) hF;
       labels := table Tn (Z.to_nat n) hL |} batch_size k =
  Ok (map (fun idx => view_column (map (hF idx) (seq 0 Tn)))
        (seq (k * Pos.to_nat batch_size) (Pos.to_nat batch_size)),
      map (fun idx => view_column (map (hL idx) (seq 0 Tn)))
        (seq (k * Pos.to_nat batch_size) (Pos.to_nat batch_size))).
Proof.
  intros Hk. pose proof (Pos2Nat.is_pos batch_size) as Hpos.
  unfold DataLoader_batch.
  rewrite (map_result_Ok _
             (fun i => (view_column (map (hF i) (seq 0 Tn)),
                        view_column (map (hL i) (seq 0 Tn))))).
  2:{ intros i Hi. apply in_seq in Hi.
      rewrite getitem_table by lia. now rewrite Nat2Z.id. }
  cbn [bind]. rewrite !map_map. cbn [fst snd].
  rewrite !torch_stack_columns by lia. reflexivity.
Qed.

Lemma slice_shape (h : nat -> nat -> R) (Tn a k : nat) :
  length (map (fun t => map (fun idx => [h idx t]) (seq a k)) (seq 0 Tn)) = Tn /\
  Forall (fun m => shape2 m = repeat 1%nat k)
    (map (fun t => map (fun idx => [h idx t]) (seq a k)) (seq 0 Tn)).
Proof.
  split; [now rewrite length_map, length_seq|].
  apply Forall_forall. intros m Hm.
  apply in_map_iff in Hm as (t & <- & _).
  unfold shape2. rewrite map_map. cbn [length].
  rewrite <- (length_seq k a) at 2. generalize (seq a k).
  intros l; induction l; simpl; [reflexivity | now f_equal].
Qed.

(** X17.  Batching undoes the stacking of the constructor: after the batch and
    time axes are swapped, the features (and the labels) of the [k]-th
    batch are the dataset's tensor restricted to the samples
    [k * batch_size .. (k+1) * batch_size - 1]. *)
Theorem DataLoader_batch_is_slice (rand : nat -> R)
  (timesteps num_samples : Z) (mode : string) (batch_size : positive)
  (k : nat) :
  (0 <= timesteps)%Z ->
  (1 <= num_samples)%Z ->
  mode = "linear"%string \/ mode = "sqrt"%string ->
  (k < Z.to_nat num_samples / Pos.to_nat batch_size)%nat ->
  exists d feature label,
    RegressionDataset_init rand timesteps num_samples mode = Ok d /\
    DataLoader_len d batch_size = (Z.to_nat num_samples / Pos.to_nat batch_size)%nat /\
    DataLoader_batch d batch_size k = Ok (feature, label) /\
    swapaxes01 feature =
    samples_of (features d) (k * Pos.to_nat batch_size) (Pos.to_nat batch_size) /\
    swapaxes01 label =
    samples_of (labels d) (k * Pos.to_nat batch_size) (Pos.to_nat batch_size).
Proof.
  intros HT Hn Hmode Hk.
  pose proof (Pos2Nat.is_pos batch_size) as Hpos.
  pose proof (batch_in_range _ _ _ Hk) as Hrange.
  eexists. eexists. eexists.
  split; [apply RegressionDataset_init_value; assumption|].
  split; [reflexivity|].
  rewrite tmap3_table.
  split; [now apply DataLoader_batch_table|].
  cbn [features labels].
  rewrite !swapaxes01_columns, !samples_of_table by lia.
  split; reflexivity.
Qed.

Lemma DataLoader_batch_is_slice_witness :
  exists d feature label,
    RegressionDataset_init (fun _ => 0.5) 50 5 "sqrt" = Ok d /\
    DataLoader_len d 2 = (Z.to_nat 5 / Pos.to_nat 2)%nat /\
    DataLoader_batch d 2 1 = Ok (feature, label) /\
    swapaxes01 feature =
    samples_of (features d) (1 * Pos.to_nat 2) (Pos.to_nat 2) /\
    swapaxes01 label =
    samples_of (labels d) (1 * Pos.to_nat 2) (Pos.to_nat 2).
Proof.
  apply (DataLoader_batch_is_slice (fun _ => 0.5) 50 5 "sqrt" 2 1);
    [lia | lia | right; reflexivity | vm_compute; lia].
Defined.

(** X18.  The loops of the notebook are well shaped: for a dataset and a network
    built with the same number of time steps (at least one), every batch
    goes through [forward] without an exception, and the potentials returned
    and the labels they are compared with both have shape
    [timesteps][batch_size][1]. *)
Theorem predict_batch_shapes (rand : nat -> R) (drm : ResetMechanism)
  (timesteps num_samples : Z) (mode : string) (H : nat) (p : NetParams)
  (batch_size : positive) (k : nat) :
  (1 <= timesteps)%Z ->
  (1 <= num_samples)%Z ->
  mode = "linear"%string \/ mode = "sqrt"%string ->
  (k < Z.to_nat num_samples / Pos.to_nat batch_size)%nat ->
  exists d mem label,
    RegressionDataset_init rand timesteps num_samples mode = Ok d /\
    predict_batch (Net_init drm timesteps H p) d batch_size k = Ok (mem, label) /\
    length mem = Z.to_nat timesteps /\
    length label = Z.to_nat timesteps /\
    Forall (fun m => shape2 m = repeat 1%nat (Pos.to_nat batch_size)) mem /\
    Forall (fun m => shape2 m = repeat 1%nat (Pos.to_nat batch_size)) label.
Proof.
  intros HT Hn Hmode Hk.
  pose proof (Pos2Nat.is_pos batch_size) as Hpos.
  pose proof (batch_in_range _ _ _ Hk) as Hrange.
  set (a := (k * Pos.to_nat batch_size)%nat) in *.
  set (hF := fun idx => ramp (rand idx) timesteps).
  set (hL := fun idx t => label_of mode (rand (Z.to_nat num_samples)) (hF idx t)).
  destruct (slice_shape hF (Z.to_nat timesteps) a (Pos.to_nat batch_size))
    as (LF & SF).
  destruct (slice_shape hL (Z.to_nat timesteps) a (Pos.to_nat batch_size))
    as (LL & SL).
  assert (Hlen : (timesteps <= Z.of_nat (length
            (map (fun t => map (fun idx => [hF idx t])
                              (seq a (Pos.to_nat batch_size)))
               (seq 0 (Z.to_nat timesteps)))))%Z) by (rewrite LF; lia).
  destruct (forward_shape_ok drm timesteps H p _ (Pos.to_nat batch_size)
              HT Hlen SF) as (mem & Emem & Lmem & Smem).
  subst hL hF. cbv beta in *.
  eexists. exists mem. eexists.
  split; [apply RegressionDataset_init_value; (assumption || lia)|].
  rewrite tmap3_table. unfold predict_batch.
  rewrite DataLoader_batch_table by exact Hrange.
  cbn [bind fst snd]. fold a.
  rewrite !swapaxes01_columns by lia.
  rewrite Emem. cbn [bind].
  split; [reflexivity|].
  repeat split; assumption.
Qed.

Lemma predict_batch_shapes_witness :
  exists d mem label,
    RegressionDataset_init (fun _ => 0.5) 50 1 "sqrt" = Ok d /\
    predict_batch (Net_init ResetSubtract 50 128 sample_params) d 1 0
    = Ok (mem, label) /\
    length mem = Z.to_nat 50 /\
    length label = Z.to_nat 50 /\
    Forall (fun m => shape2 m = repeat 1%nat (Pos.to_nat 1)) mem /\
    Forall (fun m => shape2 m = repeat 1%nat (Pos.to_nat 1)) label.
Proof.
  apply (predict_batch_shapes (fun _ => 0.5) ResetSubtract 50 1 "sqrt" 128
           sample_params 1 0);
    [lia | lia | right; reflexivity | vm_compute; lia].
Defined.
